(** * table-read: the room/session state machine of the socket server

    A shallow embedding of the server (the version with the script
    catalogue and [scriptIndex]): the room registry [rooms], the socket
    handlers registered in [io.on('connection', ...)], the helpers they
    call ([generateCode], [makeUniqueCode], [allCharactersAssigned],
    [broadcastPlayerList], [broadcastAssignments], [sendCurrentBeat],
    [advanceBeat]), the [setTimeout] callback of [sendCurrentBeat],
    the line-count pass that prepares the catalogue at start-up and
    the list that [GET /api/scripts] answers with.

    Modelling conventions.
    - The process state (the global [rooms] object, the connected
      sockets with their [socket.data], the pending timers, the clock and
      everything emitted so far) is one record [World]; a handler is a
      function in the monad [M], which threads the [World] and can end
      in an uncaught [TypeError].  Handlers run inside socket.io's
      [process.nextTick] callback and the file installs no
      [uncaughtException] handler, so an uncaught error ends the
      process: nothing is reachable after a [Throw].
    - [Math.random] is an oracle [rnd]: the [k]-th call of
      [Math.floor(Math.random() * n)] in the life of the process is
      [rnd k mod n].
    - JavaScript objects used as dictionaries ([rooms], [assignments])
      are finite maps; property names inherited from [Object.prototype]
      are outside the model.  Strings are ASCII strings; [trim] strips
      the ASCII white space characters.
    - [socket.join(code)] and the delivery of [io.to(code).emit] are
      recorded as an emission addressed to the audience [code].
    - A request carries its payload object, with strings where the
      handlers read names, and create-room and join-room come with
      their acknowledgement function: the type [Input]. *)

From stdpp Require Import base option list strings gmap fin_maps.
From Stdlib Require Import ZArith Lia Ascii.

Local Open Scope string_scope.
Local Open Scope list_scope.

(** ** JavaScript values that the handlers compare and store *)

Inductive jsval : Type :=
| undefined
| null
| str (s : string).

Global Instance jsval_eq_dec : EqDecision jsval.
Proof. solve_decision. Defined.

(** [!!v]: [undefined], [null] and the empty string are falsy. *)
Definition truthy (v : jsval) : bool :=
  match v with
  | str s => negb (String.eqb s "")
  | _ => false
  end.

(** [a || b] *)
Definition js_or (a b : jsval) : jsval := if truthy a then a else b.

(** [obj[key]] on an object used as a dictionary. *)
Definition prop (obj : gmap string jsval) (key : string) : jsval :=
  match obj !! key with
  | Some v => v
  | None => undefined
  end.

(** A value read from [socket.data]: a missing field is [undefined]. *)
Definition of_field (f : option string) : jsval :=
  match f with
  | Some s => str s
  | None => undefined
  end.

(** ** [String.prototype.trim] on ASCII strings *)

Definition is_space (a : ascii) : bool :=
  let n := nat_of_ascii a in
  (Nat.leb 9 n && Nat.leb n 13) || Nat.eqb n 32.

Fixpoint trimStart (s : string) : string :=
  match s with
  | EmptyString => EmptyString
  | String a s' => if is_space a then trimStart s' else s
  end.

Fixpoint trimEnd (s : string) : string :=
  match s with
  | EmptyString => EmptyString
  | String a s' =>
      let t := trimEnd s' in
      if is_space a && String.eqb t "" then EmptyString else String a t
  end.

Definition trim (s : string) : string := trimEnd (trimStart s).

(** ** Data model *)

(** A beat of a script: [{type: 'dialogue', character, text}], or any
    other [type] (a stage direction), which carries no character. *)
Inductive Beat : Type :=
| dialogue (character : string) (text : string)
| direction (text : string).

Definition is_dialogue (b : Beat) : bool :=
  match b with
  | dialogue _ _ => true
  | direction _ => false
  end.

Record Character : Type := mkCharacter {
  c_name : string;
  lineCount : nat
}.

Record Script : Type := mkScript {
  title : string;
  characters : list Character;
  beats : list Beat
}.

Record Player : Type := mkPlayer {
  p_id : string;
  p_name : string
}.

Inductive State : Type := lobby | performance | ended.

Global Instance State_eq_dec : EqDecision State.
Proof. solve_decision. Defined.

(** [{ hostId, hostName, players, script, assignments, state, currentBeat }] *)
Record Room : Type := mkRoom {
  hostId : string;
  hostName : string;
  players : list Player;
  script : Script;
  assignments : gmap string jsval;
  state : State;
  currentBeat : nat
}.

Definition set_players (ps : list Player) (r : Room) : Room :=
  mkRoom (hostId r) (hostName r) ps (script r) (assignments r) (state r) (currentBeat r).

Definition set_assignments (a : gmap string jsval) (r : Room) : Room :=
  mkRoom (hostId r) (hostName r) (players r) (script r) a (state r) (currentBeat r).

Definition set_state (s : State) (r : Room) : Room :=
  mkRoom (hostId r) (hostName r) (players r) (script r) (assignments r) s (currentBeat r).

Definition set_currentBeat (n : nat) (r : Room) : Room :=
  mkRoom (hostId r) (hostName r) (players r) (script r) (assignments r) (state r) n.

Inductive Role : Type := host | player.

Global Instance Role_eq_dec : EqDecision Role.
Proof. solve_decision. Defined.

(** [socket.data]: empty on connection, filled by create-room and
    join-room. *)
Record SocketData : Type := mkData {
  d_code : option string;
  d_role : option Role;
  d_name : option string
}.

Definition no_data : SocketData := mkData None None None.

(** What the server sends. *)
Inductive Event : Type :=
| pong
| player_list (l : list (string * bool))
| assignments_ev (a : gmap string jsval)
| casting_complete (b : bool)
| performance_started (t : string)
| beat_ev (index total : nat) (beat : Beat) (activePlayer : jsval)
| performance_ended
| host_left
| kicked (reason : string).

(** The argument of an acknowledgement callback. *)
Inductive Reply : Type :=
| error (msg : string)
| created (code : string) (s : Script)
| joined (name : string) (s : Script) (a : gmap string jsval).

Inductive Emission : Type :=
| ToRoom (code : string) (e : Event)
| ToSocket (sid : string) (e : Event)
| Callback (sid : string) (r : Reply).

(** A pending [setTimeout] callback of [sendCurrentBeat]: the variables
    it closes over and the time at which it is due. *)
Record Timer : Type := mkTimer {
  t_code : string;
  t_beatIndex : nat;
  t_due : nat
}.

Record World : Type := mkWorld {
  rooms : gmap string Room;
  sockets : gmap string SocketData;
  timers : list Timer;
  now : nat;
  emitted : list Emission;
  drawn : nat
}.

Definition init : World := mkWorld ∅ ∅ [] 0 [] 0.

Definition with_rooms (f : gmap string Room → gmap string Room) (w : World) : World :=
  mkWorld (f (rooms w)) (sockets w) (timers w) (now w) (emitted w) (drawn w).

Definition with_sockets (f : gmap string SocketData → gmap string SocketData) (w : World) : World :=
  mkWorld (rooms w) (f (sockets w)) (timers w) (now w) (emitted w) (drawn w).

Definition with_timers (f : list Timer → list Timer) (w : World) : World :=
  mkWorld (rooms w) (sockets w) (f (timers w)) (now w) (emitted w) (drawn w).

(** ** The handler monad

    A run ends normally ([Ok]), with an uncaught error ([Throw], with
    the state at the throw) or, for the retry loop of [makeUniqueCode]
    only, beyond the bound put on its rounds ([Fuel]). *)

Inductive Res (A : Type) : Type :=
| Ok (a : A) (w : World)
| Throw (w : World)
| Fuel.

Arguments Ok {A} a w.
Arguments Throw {A} w.
Arguments Fuel {A}.

Definition M (A : Type) : Type := World → Res A.

Global Instance M_ret : MRet M := λ A a w, Ok a w.

Global Instance M_bind : MBind M := λ A B f m w,
  match m w with
  | Ok a w' => f a w'
  | Throw w' => Throw w'
  | Fuel => Fuel
  end.

Definition get : M World := λ w, Ok w w.
Definition modify (f : World → World) : M unit := λ w, Ok tt (f w).
Definition throw {A} : M A := λ w, Throw w.
Definition out_of_fuel {A} : M A := λ _, Fuel.
Definition skip : M unit := mret tt.

(** [io.to(code).emit(...)], [socket.emit(...)] and [callback(...)]. *)
Definition emit (e : Emission) : M unit :=
  modify (λ w, mkWorld (rooms w) (sockets w) (timers w) (now w) (emitted w ++ [e]) (drawn w)).

(** [rooms[code] = room] and the write-back of a mutated room object. *)
Definition put_room (code : string) (r : Room) : M unit :=
  modify (with_rooms (insert code r)).

(** [socket.data.code = ...; socket.data.role = ...; socket.data.name = ...] *)
Definition set_data (sid : string) (d : SocketData) : M unit :=
  modify (with_sockets (insert sid d)).

(** [const { code, role, name } = socket.data] *)
Definition socket_data (sid : string) : M SocketData :=
  w ← get; mret (default no_data (sockets w !! sid)).

(** [setTimeout(callback, delay)] *)
Definition setTimeout (code : string) (beatIndex delay : nat) : M unit :=
  modify (λ w, with_timers (λ ts, ts ++ [mkTimer code beatIndex (now w + delay)]) w).

(** ** The line-count pass over the catalogue *)

(** [const counts = {}; script.characters.forEach((c) => { counts[c.name] = 0; })] *)
Definition zero_counts (cs : list Character) : gmap string nat :=
  foldl (λ counts c, <[c_name c := 0]> counts) ∅ cs.

(** [if (b.type === 'dialogue' && b.character in counts) counts[b.character]++] *)
Definition count_beat (counts : gmap string nat) (b : Beat) : gmap string nat :=
  match b with
  | dialogue character _ =>
      match counts !! character with
      | Some n => <[character := S n]> counts
      | None => counts
      end
  | direction _ => counts
  end.

(** [const counts = ...] as it stands after both [forEach] loops. *)
Definition line_counts (s : Script) : gmap string nat :=
  foldl count_beat (zero_counts (characters s)) (beats s).

(** One step of [scripts.map((script) => ...)]:
    [{ ...script, characters: script.characters.map((c) => ({ ...c, lineCount: counts[c.name] })) }].
    [counts] has a key for every character of the script, see
    [line_counts_lookup]. *)
Definition prepare (s : Script) : Script :=
  let counts := line_counts s in
  mkScript (title s)
    (map (λ c, mkCharacter (c_name c) (default 0 (counts !! c_name c))) (characters s))
    (beats s).

(** The dialogue beats of the character [name]. *)
Definition is_line_of (name : string) (b : Beat) : bool :=
  match b with
  | dialogue character _ => bool_decide (character = name)
  | direction _ => false
  end.

Definition lines_of (name : string) (bs : list Beat) : nat :=
  length (filter (λ b, is_line_of name b = true) bs).

(** ** The server *)

Section Server.

(** [const scripts = require('./scripts')] after the line-count pass:
    the catalogue is loaded from files at start-up and never changes. *)
Variable preparedScripts : list Script.

(** The oracle behind [Math.random]. *)
Variable rnd : nat → nat.

(** [Math.floor(Math.random() * n)]: the next draw, an index below [n]. *)
Definition floor_random (n : nat) : M nat := λ w,
  Ok (rnd (drawn w) mod n)
     (mkWorld (rooms w) (sockets w) (timers w) (now w) (emitted w) (S (drawn w))).

Definition chars : string := "ABCDEFGHJKLMNPQRSTUVWXYZ23456789".

(** [code += chars[i]]; an index out of range would append the text of
    [undefined]. *)
Definition char_at (s : string) (i : nat) : string :=
  match String.get i s with
  | Some a => String a EmptyString
  | None => "undefined"
  end.

(** [for (let i = 0; i < 4; i++) code += chars[...]], [n] rounds to go. *)
Fixpoint generateCode_loop (n : nat) (code : string) : M string :=
  match n with
  | 0 => mret code
  | S n' =>
      i ← floor_random (String.length chars);
      generateCode_loop n' (code +:+ char_at chars i)
  end.

Definition generateCode : M string := generateCode_loop 4 "".

(** [do { code = generateCode(); } while (rooms[code]);] with a bound on
    the number of rounds. *)
Fixpoint makeUniqueCode (fuel : nat) : M string :=
  match fuel with
  | 0 => out_of_fuel
  | S fuel' =>
      code ← generateCode;
      w ← get;
      if decide (is_Some (rooms w !! code)) then makeUniqueCode fuel' else mret code
  end.

Definition allCharactersAssigned (room : Room) : bool :=
  forallb (λ c, truthy (prop (assignments room) (c_name c))) (characters (script room)).

Definition broadcastPlayerList (code : string) : M unit :=
  w ← get;
  match rooms w !! code with
  | None => skip
  | Some room =>
      emit (ToRoom code
              (player_list ((hostName room, true)
                            :: map (λ p, (p_name p, false)) (players room))))
  end.

Definition broadcastAssignments (code : string) : M unit :=
  w ← get;
  match rooms w !! code with
  | None => skip
  | Some room =>
      emit (ToRoom code (assignments_ev (assignments room)));;
      emit (ToRoom code (casting_complete (allCharactersAssigned room)))
  end.

(** The fixed delay of the auto-advance, in milliseconds. *)
Definition delay : nat := 4000.

Definition sendCurrentBeat (code : string) : M unit :=
  w ← get;
  match rooms w !! code with
  | None => skip
  | Some room =>
      if decide (state room ≠ performance) then skip else
      match beats (script room) !! currentBeat room with
      | None => throw (* beat is undefined: beat.type *)
      | Some beat =>
          let activePlayer :=
            match beat with
            | dialogue character _ => js_or (prop (assignments room) character) null
            | direction _ => null
            end in
          emit (ToRoom code
                  (beat_ev (currentBeat room) (length (beats (script room)))
                           beat activePlayer));;
          if is_dialogue beat then skip
          else setTimeout code (currentBeat room) delay
      end
  end.

Definition advanceBeat (code : string) : M unit :=
  w ← get;
  match rooms w !! code with
  | None => skip
  | Some room =>
      if decide (state room ≠ performance) then skip else
      let room1 := set_currentBeat (S (currentBeat room)) room in
      put_room code room1;;
      if decide (length (beats (script room1)) ≤ currentBeat room1)%nat then
        put_room code (set_state ended room1);;
        emit (ToRoom code performance_ended)
      else sendCurrentBeat code
  end.

(** The callback passed to [setTimeout] in [sendCurrentBeat]. *)
Definition timer_callback (t : Timer) : M unit :=
  w ← get;
  match rooms w !! t_code t with
  | None => skip
  | Some room =>
      if decide (currentBeat room = t_beatIndex t ∧ state room = performance)
      then advanceBeat (t_code t)
      else skip
  end.

(** [!code || !rooms[code]] *)
Definition room_of (w : World) (code : option string) : option (string * Room) :=
  match code with
  | None => None
  | Some c => if String.eqb c "" then None else pair c <$> rooms w !! c
  end.

(** *** The handlers of [io.on('connection', (socket) => ...)]

    [sid] is [socket.id] of the socket the handler was registered on. *)

Definition on_ping (sid : string) : M unit := emit (ToSocket sid pong).

(** [preparedScripts[scriptIndex]] for a numeric index. *)
Definition script_at (scriptIndex : Z) : option Script :=
  if decide (0 ≤ scriptIndex)%Z then preparedScripts !! Z.to_nat scriptIndex else None.

(** [assignments = {}; script.characters.forEach((c) => { assignments[c.name] = null; })] *)
Definition unassigned (cs : list Character) : gmap string jsval :=
  foldl (λ a c, <[c_name c := null]> a) ∅ cs.

(** [name] is [None] when the payload has no name; the acknowledgement
    [callback] is taken to be a function. *)
Definition on_create_room (fuel : nat) (sid : string)
    (name : option string) (scriptIndex : Z) : M unit :=
  let trimmedName := trim (default "" name) in
  if String.eqb trimmedName "" then
    emit (Callback sid (error "Please enter your name."))
  else
    let script :=
      match script_at scriptIndex with
      | Some s => Some s
      | None => preparedScripts !! 0
      end in
    code ← makeUniqueCode fuel;
    match script with
    | None => throw (* script is undefined: script.characters *)
    | Some script =>
        put_room code
          (mkRoom sid trimmedName [] script (unassigned (characters script)) lobby 0);;
        set_data sid (mkData (Some code) (Some host) (Some trimmedName));;
        emit (Callback sid (created code script))
    end.

Definition on_join_room (sid : string) (code : string) (name : option string) : M unit :=
  w ← get;
  match rooms w !! code with
  | None =>
      emit (Callback sid (error "Room not found. Check your code and try again."))
  | Some room =>
      if decide (state room = performance) then
        emit (Callback sid (error "Performance already started."))
      else
        let trimmedName := trim (default "" name) in
        if String.eqb trimmedName "" then
          emit (Callback sid (error "Please enter your name."))
        else
          put_room code (set_players (players room ++ [mkPlayer sid trimmedName]) room);;
          set_data sid (mkData (Some code) (Some player) (Some trimmedName));;
          emit (Callback sid (joined trimmedName (script room) (assignments room)));;
          broadcastPlayerList code;;
          broadcastAssignments code
  end.

Definition on_claim_character (sid : string) (character : string) : M unit :=
  d ← socket_data sid;
  w ← get;
  match room_of w (d_code d) with
  | None => skip
  | Some (code, room) =>
      if decide (state room ≠ lobby) then skip else
      if decide (assignments room !! character = None) then skip else
      let a := assignments room in
      let name := of_field (d_name d) in
      (if decide (prop a character = name) then
         put_room code (set_assignments (<[character := null]> a) room)
       else if negb (truthy (prop a character)) then
         put_room code (set_assignments (<[character := name]> a) room)
       else skip);;
      broadcastAssignments code
  end.

Definition on_force_assign (sid : string) (character : string) (toPlayer : jsval) : M unit :=
  d ← socket_data sid;
  w ← get;
  match room_of w (d_code d) with
  | None => skip
  | Some (code, room) =>
      if decide (d_role d ≠ Some host) then skip else
      if decide (assignments room !! character = None) then skip else
      let valid :=
        bool_decide (toPlayer = str (hostName room))
        || existsb (λ p, bool_decide (str (p_name p) = toPlayer)) (players room) in
      if bool_decide (toPlayer ≠ null) && negb valid then skip else
      put_room code
        (set_assignments (<[character := js_or toPlayer null]> (assignments room)) room);;
      broadcastAssignments code;;
      if decide (state room = performance) then sendCurrentBeat code else skip
  end.

(** [Object.keys(room.assignments).forEach((char) => { if
    (room.assignments[char] === name) room.assignments[char] = null; })] *)
Definition release (name : jsval) (a : gmap string jsval) : gmap string jsval :=
  (λ v, if decide (v = name) then null else v) <$> a.

Definition on_boot_player (sid : string) (playerName : string) : M unit :=
  d ← socket_data sid;
  w ← get;
  match room_of w (d_code d) with
  | None => skip
  | Some (code, room) =>
      if decide (d_role d ≠ Some host) then skip else
      match List.find (λ p, bool_decide (p_name p = playerName)) (players room) with
      | None => skip
      | Some target =>
          a1 ← (if decide (state room = performance) then
                  match beats (script room) !! currentBeat room with
                  | None => throw (* beat is undefined: beat.type *)
                  | Some (dialogue character _) =>
                      if decide (prop (assignments room) character = str playerName)
                      then mret (<[character := str (hostName room)]> (assignments room))
                      else mret (assignments room)
                  | Some (direction _) => mret (assignments room)
                  end
                else mret (assignments room));
          let a2 := release (str playerName) a1 in
          let ps := filter (λ p, p_name p ≠ playerName) (players room) in
          put_room code (set_players ps (set_assignments a2 room));;
          (if decide (is_Some (sockets w !! p_id target)) then
             emit (ToSocket (p_id target) (kicked "You were removed by the host."))
           else skip);;
          broadcastPlayerList code;;
          broadcastAssignments code;;
          if decide (state room = performance) then sendCurrentBeat code else skip
      end
  end.

Definition on_start_performance (sid : string) : M unit :=
  d ← socket_data sid;
  w ← get;
  match room_of w (d_code d) with
  | None => skip
  | Some (code, room) =>
      if decide (d_role d ≠ Some host) then skip else
      if negb (allCharactersAssigned room) then skip else
      put_room code (set_currentBeat 0 (set_state performance room));;
      emit (ToRoom code (performance_started (title (script room))));;
      sendCurrentBeat code
  end.

Definition on_beat_done (sid : string) : M unit :=
  d ← socket_data sid;
  w ← get;
  match room_of w (d_code d) with
  | None => skip
  | Some (code, room) =>
      if decide (state room ≠ performance) then skip else
      match beats (script room) !! currentBeat room with
      | None => throw (* beat is undefined: beat.type *)
      | Some (direction _) => skip
      | Some (dialogue character _) =>
          let activePlayer := prop (assignments room) character in
          if decide (of_field (d_name d) ≠ activePlayer ∧ d_role d ≠ Some host)
          then skip
          else advanceBeat code
      end
  end.

(** The socket has left [io.sockets.sockets] when its disconnect
    handler runs. *)
Definition on_disconnect (sid : string) : M unit :=
  d ← socket_data sid;
  modify (with_sockets (delete sid));;
  w ← get;
  match room_of w (d_code d) with
  | None => skip
  | Some (code, room) =>
      if decide (d_role d = Some host) then
        emit (ToRoom code host_left);;
        modify (with_rooms (delete code))
      else
        let ps := filter (λ p, p_id p ≠ sid) (players room) in
        let a := release (of_field (d_name d)) (assignments room) in
        put_room code (set_assignments a (set_players ps room));;
        broadcastPlayerList code;;
        broadcastAssignments code
  end.

(** *** The event loop: one input at a time, each run to completion *)

Inductive Input : Type :=
| Connect (sid : string)
| Ping (sid : string)
| CreateRoom (sid : string) (name : option string) (scriptIndex : Z)
| JoinRoom (sid : string) (code : string) (name : option string)
| ClaimCharacter (sid : string) (character : string)
| ForceAssign (sid : string) (character : string) (toPlayer : jsval)
| BootPlayer (sid : string) (playerName : string)
| StartPerformance (sid : string)
| BeatDone (sid : string)
| Disconnect (sid : string)
| TimerFires (i : nat)
| TimePasses (ms : nat).

(** Only a connected socket delivers events. *)
Definition from_socket (sid : string) (m : M unit) : M unit :=
  w ← get;
  if decide (is_Some (sockets w !! sid)) then m else skip.

(** The [i]-th pending timer fires, once it is due. *)
Definition fire (i : nat) : M unit :=
  w ← get;
  match timers w !! i with
  | None => skip
  | Some t =>
      if decide (t_due t ≤ now w)%nat then
        modify (with_timers (λ ts, take i ts ++ drop (S i) ts));;
        timer_callback t
      else skip
  end.

Definition handle (fuel : nat) (i : Input) : M unit :=
  match i with
  | Connect sid =>
      w ← get;
      if decide (is_Some (sockets w !! sid)) then skip else set_data sid no_data
  | Ping sid => from_socket sid (on_ping sid)
  | CreateRoom sid name scriptIndex =>
      from_socket sid (on_create_room fuel sid name scriptIndex)
  | JoinRoom sid code name => from_socket sid (on_join_room sid code name)
  | ClaimCharacter sid character => from_socket sid (on_claim_character sid character)
  | ForceAssign sid character toPlayer =>
      from_socket sid (on_force_assign sid character toPlayer)
  | BootPlayer sid playerName => from_socket sid (on_boot_player sid playerName)
  | StartPerformance sid => from_socket sid (on_start_performance sid)
  | BeatDone sid => from_socket sid (on_beat_done sid)
  | Disconnect sid => from_socket sid (on_disconnect sid)
  | TimerFires i => fire i
  | TimePasses ms =>
      modify (λ w, mkWorld (rooms w) (sockets w) (timers w) (now w + ms)
                           (emitted w) (drawn w))
  end.

(** The states of a running server. *)
Inductive reachable : World → Prop :=
| reachable_init : reachable init
| reachable_step w fuel i w' :
    reachable w → handle fuel i w = Ok tt w' → reachable w'.

(** Runs a list of inputs; stops at the first that does not complete. *)
Fixpoint run (fuel : nat) (inputs : list Input) : M unit :=
  match inputs with
  | [] => skip
  | i :: rest => handle fuel i;; run fuel rest
  end.

End Server.

(** ** The script catalogue endpoint *)

(** An entry of the list that [GET /api/scripts] answers with. *)
Record CharacterInfo : Type := mkCharacterInfo {
  ci_name : string;
  ci_lineCount : nat;
  ci_difficulty : jsval
}.

Record ScriptInfo : Type := mkScriptInfo {
  si_id : nat;
  si_title : string;
  si_author : jsval;
  si_description : jsval;
  si_characters : list CharacterInfo;
  si_beatCount : nat
}.

Section Api.

Variable preparedScripts : list Script.

(** The fields of the script and character objects that this endpoint
    alone reads: [s.author], [s.description] and [c.difficulty]. *)
Variable author description : Script → jsval.
Variable difficulty : Character → jsval.

(** [preparedScripts.map((s, i) => ({ id: i, title: s.title, author:
    s.author || null, description: s.description || null, characters:
    s.characters.map((c) => ({ name: c.name, lineCount: c.lineCount,
    difficulty: c.difficulty || null })), beatCount: s.beats.length }))] *)
Definition api_scripts : list ScriptInfo :=
  imap (λ i s,
          mkScriptInfo i (title s) (js_or (author s) null) (js_or (description s) null)
            (map (λ c, mkCharacterInfo (c_name c) (lineCount c) (js_or (difficulty c) null))
                 (characters s))
            (length (beats s)))
       preparedScripts.

End Api.

(** ** Predicates used in the statements *)

(** The beat index of a room in performance points into its script. *)
Definition bounded (room : Room) : Prop :=
  state room = performance → (currentBeat room < length (beats (script room)))%nat.

Definition beat_bound (w : World) : Prop :=
  map_Forall (λ _ room, bounded room) (rooms w).

(** Every room plays a script of the catalogue. *)
Definition scripts_known (catalogue : list Script) (w : World) : Prop :=
  map_Forall (λ _ room, script room ∈ catalogue) (rooms w).

(** An owner is [null] or a non-empty name. *)
Definition owner_ok (v : jsval) : Prop :=
  v = null ∨ ∃ n, v = str n ∧ n ≠ "".

(** The keys of [assignments] are the names of the script's characters
    and every owner is [null] or a non-empty name. *)
Definition assignments_ok (s : Script) (a : gmap string jsval) : Prop :=
  (∀ ch, is_Some (a !! ch) ↔ ch ∈ c_name <$> characters s)
  ∧ map_Forall (λ _ v, owner_ok v) a.

(** The cast of a room: well-formed assignments, and non-empty names
    for the host and the players. *)
Definition cast_ok (room : Room) : Prop :=
  hostName room ≠ ""
  ∧ Forall (λ p, p_name p ≠ "") (players room)
  ∧ assignments_ok (script room) (assignments room).

(** [socket.data] is empty, or holds a code, a role and a non-empty name. *)
Definition data_ok (d : SocketData) : Prop :=
  ∀ code, d_code d = Some code →
    code ≠ "" ∧ is_Some (d_role d) ∧ ∃ n, d_name d = Some n ∧ n ≠ "".

Definition wf_world (w : World) : Prop :=
  map_Forall (λ code room, code ≠ "" ∧ cast_ok room) (rooms w)
  ∧ map_Forall (λ _ d, data_ok d) (sockets w).

(** The room after [advanceBeat]: one beat further, and ended when
    that leaves the script. *)
Definition advanced (room : Room) : Room :=
  let room1 := set_currentBeat (S (currentBeat room)) room in
  if decide (length (beats (script room)) ≤ S (currentBeat room))%nat
  then set_state ended room1 else room1.


(** A beat notification addressed to the room [code]. *)
Definition is_beat_for (code : string) (e : Emission) : Prop :=
  ∃ index total beat activePlayer,
    e = ToRoom code (beat_ev index total beat activePlayer).

(** The room [code], ended with beat index [n], is still so, or gone. *)
Definition still_ended (code : string) (n : nat) (w : World) : Prop :=
  rooms w !! code = None
  ∨ ∃ room, rooms w !! code = Some room ∧ state room = ended ∧ currentBeat room = n.

(** The log [l'] extends [l] without a beat notification for [code]. *)
Definition quiet_for (code : string) (l l' : list Emission) : Prop :=
  ∃ out, l' = l ++ out ∧ Forall (λ e, ¬ is_beat_for code e) out.

Definition alphabet : list ascii := String.list_ascii_of_string chars.

(** The glyphs the alphabet leaves out. *)
Definition confusable : list ascii := ["0"; "O"; "1"; "I"]%char.

(** The code that [generateCode] builds from the draws [n .. n+3]. *)
Definition code_at (rnd : nat → nat) (n : nat) : string :=
  ((("" +:+ char_at chars (rnd n mod 32))
        +:+ char_at chars (rnd (S n) mod 32))
        +:+ char_at chars (rnd (S (S n)) mod 32))
        +:+ char_at chars (rnd (S (S (S n))) mod 32).

Definition is_performance_ended (e : Emission) : bool :=
  match e with
  | ToRoom _ performance_ended => true
  | _ => false
  end.

(** A room code: four characters of the alphabet. *)
Definition code_ok (code : string) : Prop :=
  String.length code = 4 ∧ Forall (λ a, a ∈ alphabet) (String.list_ascii_of_string code).

(** *** The host's casting commands *)

(** [validNames = [room.hostName, ...room.players.map((p) => p.name)]] *)
Definition member_name (room : Room) (n : string) : Prop :=
  n = hostName room ∨ ∃ p, p ∈ players room ∧ p_name p = n.

(** A [toPlayer] that force-assign accepts: [null], or a valid name. *)
Definition target_ok (room : Room) (v : jsval) : Prop :=
  v = null ∨ ∃ n, v = str n ∧ member_name room n.

Definition is_kicked (e : Emission) : bool :=
  match e with
  | ToSocket _ (kicked _) => true
  | _ => false
  end.

(** *** One step of the server *)

(** The same property names: [Object.keys] of both objects agree. *)
Definition same_keys (a' a : gmap string jsval) : Prop :=
  ∀ ch, is_Some (a' !! ch) ↔ is_Some (a !! ch).

(** What the input [i] may have done to a room that is still in the
    registry: its host, script and cast of characters are those it was
    created with; its state and beat are as before, or it was started,
    or it moved on by one beat. *)
Definition room_step (i : Input) (room room' : Room) : Prop :=
  hostId room' = hostId room ∧ hostName room' = hostName room
  ∧ script room' = script room
  ∧ same_keys (assignments room') (assignments room)
  ∧ ((state room' = state room ∧ currentBeat room' = currentBeat room)
     ∨ (∃ sid, i = StartPerformance sid ∧ allCharactersAssigned room = true
               ∧ room' = set_currentBeat 0 (set_state performance room))
     ∨ (((∃ sid, i = BeatDone sid) ∨ (∃ k, i = TimerFires k))
        ∧ state room = performance ∧ room' = advanced room)).

(** What the input [i] may have done to the entry [code] of the
    registry. *)
Definition registry_step (i : Input) (w : World) (code : string)
    (before after : option Room) : Prop :=
  match before, after with
  | None, None => True
  | None, Some room' =>
      ∃ sid name scriptIndex,
        i = CreateRoom sid name scriptIndex
        ∧ hostId room' = sid ∧ hostName room' = trim (default "" name)
        ∧ players room' = [] ∧ state room' = lobby ∧ currentBeat room' = 0
        ∧ assignments room' = unassigned (characters (script room'))
  | Some room, Some room' => room_step i room room'
  | Some room, None =>
      ∃ sid d, i = Disconnect sid ∧ sockets w !! sid = Some d
               ∧ d_code d = Some code ∧ d_role d = Some host
  end.

(** What the input [i] may have done to [socket.data] of the socket
    [sid]: a socket comes with a connection and goes with its
    disconnect; in between only its own create-room and join-room write
    its data. *)
Definition socket_step (i : Input) (w w' : World) (sid : string)
    (before after : option SocketData) : Prop :=
  match before, after with
  | None, None => True
  | None, Some d' => i = Connect sid ∧ d' = no_data
  | Some d, None => i = Disconnect sid
  | Some d, Some d' =>
      (d' = d ∧ i ≠ Disconnect sid)
      ∨ (∃ name scriptIndex code room',
           i = CreateRoom sid name scriptIndex
           ∧ d' = mkData (Some code) (Some host) (Some (trim (default "" name)))
           ∧ rooms w !! code = None ∧ rooms w' !! code = Some room'
           ∧ hostId room' = sid)
      ∨ (∃ code name,
           i = JoinRoom sid code name
           ∧ d' = mkData (Some code) (Some player) (Some (trim (default "" name)))
           ∧ is_Some (rooms w !! code))
  end.

(** A socket in the role of host is the one that created the room
    behind its code, and that room is in the registry. *)
Definition hosts_own (w : World) : Prop :=
  ∀ sid d code,
    sockets w !! sid = Some d → d_code d = Some code → d_role d = Some host →
    ∃ room, rooms w !! code = Some room ∧ hostId room = sid.

(** The active player that [sendCurrentBeat] announces for a beat. *)
Definition active_player (room : Room) (beat : Beat) : jsval :=
  match beat with
  | dialogue character _ => js_or (prop (assignments room) character) null
  | direction _ => null
  end.

(** What is sent to a room agrees with the room as it stands in [w];
    a single socket is sent nothing but [pong] and [kicked]. *)
Definition reflects (w : World) (e : Emission) : Prop :=
  match e with
  | ToRoom code host_left => rooms w !! code = None
  | ToRoom code ev =>
      ∃ room, rooms w !! code = Some room ∧
        match ev with
        | player_list l =>
            l = (hostName room, true) :: map (λ p, (p_name p, false)) (players room)
        | assignments_ev a => a = assignments room
        | casting_complete b => b = allCharactersAssigned room
        | performance_started t =>
            t = title (script room) ∧ state room = performance ∧ currentBeat room = 0
        | beat_ev index total beat activePlayer =>
            state room = performance ∧ index = currentBeat room
            ∧ total = length (beats (script room))
            ∧ beats (script room) !! index = Some beat
            ∧ activePlayer = active_player room beat
        | performance_ended =>
            state room = ended ∧ (length (beats (script room)) ≤ currentBeat room)%nat
        | _ => False
        end
  | ToSocket _ ev =>
      match ev with
      | pong | kicked _ => True
      | _ => False
      end
  | Callback _ _ => True
  end.

(** A beat notification tells beat [index] of a script of the
    catalogue and the length of that script; the active player of a
    line is [null] or a non-empty name, that of a direction is [null]. *)
Definition beat_notice_ok (catalogue : list Script) (e : Emission) : Prop :=
  match e with
  | ToRoom _ (beat_ev index total beat activePlayer) =>
      ∃ s, s ∈ catalogue ∧ beats s !! index = Some beat ∧ total = length (beats s)
           ∧ (if is_dialogue beat then owner_ok activePlayer else activePlayer = null)
  | ToSocket _ (beat_ev _ _ _ _) => False
  | _ => True
  end.

(** No connected socket holds the role of host for the room [code]. *)
Definition unhosted (code : string) (w : World) : Prop :=
  ∀ sid d, sockets w !! sid = Some d → d_code d = Some code → d_role d ≠ Some host.




(** Every room that performs a direction has an auto-advance timer
    pending for that beat, due within the fixed delay. *)
Definition armed (w : World) : Prop :=
  ∀ code room text,
    rooms w !! code = Some room → state room = performance →
    beats (script room) !! currentBeat room = Some (direction text) →
    ∃ t, t ∈ timers w ∧ t_code t = code ∧ t_beatIndex t = currentBeat room
         ∧ (t_due t ≤ now w + delay)%nat.

(** The requests that can change who plays what in the room [code]:
    a claim in the lobby, the host's force-assign and boot-player, and
    the disconnect of a player. *)
Definition casting_step (i : Input) (w : World) (code : string) (room : Room) : Prop :=
  (∃ sid d ch, i = ClaimCharacter sid ch ∧ sockets w !! sid = Some d
               ∧ d_code d = Some code ∧ state room = lobby)
  ∨ (∃ sid d ch v, i = ForceAssign sid ch v ∧ sockets w !! sid = Some d
                   ∧ d_code d = Some code ∧ d_role d = Some host)
  ∨ (∃ sid d n, i = BootPlayer sid n ∧ sockets w !! sid = Some d
                ∧ d_code d = Some code ∧ d_role d = Some host)
  ∨ (∃ sid d, i = Disconnect sid ∧ sockets w !! sid = Some d
              ∧ d_code d = Some code ∧ d_role d ≠ Some host).

(** *** The isolation of rooms *)

(** The socket a room request comes from. *)
Definition sender (i : Input) : option string :=
  match i with
  | ClaimCharacter sid _ | ForceAssign sid _ _ | BootPlayer sid _
  | StartPerformance sid | BeatDone sid | Disconnect sid => Some sid
  | _ => None
  end.

(** The inputs that concern the room [code]: a request of a socket
    bound to it, a join-room for it, the create-room that draws it,
    and a timer armed for it. *)
Definition concerns (i : Input) (w : World) (code : string) : Prop :=
  (∃ sid d, sender i = Some sid ∧ sockets w !! sid = Some d ∧ d_code d = Some code)
  ∨ (∃ sid name, i = JoinRoom sid code name)
  ∨ (∃ sid name scriptIndex, i = CreateRoom sid name scriptIndex ∧ rooms w !! code = None)
  ∨ (∃ k t, i = TimerFires k ∧ timers w !! k = Some t ∧ t_code t = code).

(** What the input [i] may have done to the player list of the room
    [code]: a join appends the joining socket, a boot by the host
    removes by name, and the disconnect of a player removes by id. *)
Definition players_step (i : Input) (w : World) (code : string) (room room' : Room) : Prop :=
  players room' = players room
  ∨ (∃ sid name,
       i = JoinRoom sid code name ∧ state room ≠ performance
       ∧ players room' = players room ++ [mkPlayer sid (trim (default "" name))])
  ∨ (∃ sid d n,
       i = BootPlayer sid n ∧ sockets w !! sid = Some d ∧ d_code d = Some code
       ∧ d_role d = Some host
       ∧ players room' = filter (λ p, p_name p ≠ n) (players room))
  ∨ (∃ sid d,
       i = Disconnect sid ∧ sockets w !! sid = Some d ∧ d_code d = Some code
       ∧ d_role d ≠ Some host
       ∧ players room' = filter (λ p, p_id p ≠ sid) (players room)).

(** ** A small catalogue and a few sessions, for the examples *)

Definition demo : Script :=
  mkScript "Demo" [mkCharacter "Lead" 1; mkCharacter "Sidekick" 1]
    [direction "Lights up."; dialogue "Lead" "Hello."; dialogue "Sidekick" "Hi."].

Definition oneliner : Script :=
  mkScript "One line" [mkCharacter "Solo" 1] [dialogue "Solo" "The end."].

Definition catalogue : list Script := [demo; oneliner].

(** An oracle under which the first code drawn is ABCD, the next EFGH. *)
Definition rnd_id : nat → nat := λ k, k.

Definition play (inputs : list Input) : Res unit :=
  run catalogue rnd_id 1 inputs init.

Definition world_of (r : Res unit) : World :=
  match r with
  | Ok _ w => w
  | Throw w => w
  | Fuel => init
  end.

(** Amy hosts the demo script and Ben joins; both claim a part. *)
Definition cast_session : list Input :=
  [Connect "s1"; CreateRoom "s1" (Some "Amy") 0;
   Connect "s2"; JoinRoom "s2" "ABCD" (Some "Ben");
   ClaimCharacter "s1" "Lead"; ClaimCharacter "s2" "Sidekick"].

Definition lobby_world : World := world_of (play cast_session).

(** The same session once the performance has started (beat 0, a
    direction) and once its timer has advanced it to Amy's line. *)
Definition started_world : World :=
  world_of (play (cast_session ++ [StartPerformance "s1"])).

Definition line_world : World :=
  world_of (play (cast_session ++ [StartPerformance "s1"; TimePasses 4000; TimerFires 0])).

(** A host alone performs the one-line script to its end. *)
Definition solo_session : list Input :=
  [Connect "s1"; CreateRoom "s1" (Some "Amy") 1;
   ClaimCharacter "s1" "Solo"; StartPerformance "s1"; BeatDone "s1"].

Definition ended_world : World := world_of (play solo_session).

(** Host and player share the display name "Amy"; the player owns the
    line that is active when the host boots them. *)
Definition namesake_session : list Input :=
  [Connect "s1"; CreateRoom "s1" (Some "Amy") 0;
   Connect "s2"; JoinRoom "s2" "ABCD" (Some "Amy");
   ClaimCharacter "s2" "Lead"; ClaimCharacter "s2" "Sidekick";
   StartPerformance "s1"; TimePasses 4000; TimerFires 0].

Definition namesake_world : World := world_of (play namesake_session).

(** The ended one-line room after its host sends start-performance
    again, and after a further beat-done. *)
Definition restarted_world : World :=
  world_of (handle catalogue rnd_id 1 (StartPerformance "s1") ended_world).

Definition replayed_world : World :=
  world_of (handle catalogue rnd_id 1 (BeatDone "s1") restarted_world).

(** The ended one-line room after a late-comer joins it. *)
Definition late_world : World :=
  world_of (run catalogue rnd_id 1
              [Connect "s2"; JoinRoom "s2" "ABCD" (Some "Zed")] ended_world).

(** The namesake room after the host boots the player "Amy". *)
Definition booted_world : World :=
  world_of (handle catalogue rnd_id 1 (BootPlayer "s1" "Amy") namesake_world).

(** The cast session on Amy's line, after the host cleared its owner. *)
Definition orphan_world : World :=
  world_of (handle catalogue rnd_id 1 (ForceAssign "s1" "Lead" null) line_world).

(** The sockets and the room of the cast session, written out. *)
Definition amy_host : SocketData := mkData (Some "ABCD") (Some host) (Some "Amy").
Definition ben_player : SocketData := mkData (Some "ABCD") (Some player) (Some "Ben").

Definition cast_room (owner_of_lead : jsval) (s : State) (beat : nat) : Room :=
  mkRoom "s1" "Amy" [mkPlayer "s2" "Ben"] demo
    {[ "Lead" := owner_of_lead; "Sidekick" := str "Ben" ]} s beat.

(** The one-line room on its only beat. *)
Definition solo_world : World :=
  world_of (play [Connect "s1"; CreateRoom "s1" (Some "Amy") 1;
                  ClaimCharacter "s1" "Solo"; StartPerformance "s1"]).

Definition solo_room : Room :=
  mkRoom "s1" "Amy" [] oneliner {[ "Solo" := str "Amy" ]} performance 0.

(** A server with one connected socket and no room. *)
Definition connected_world : World := world_of (play [Connect "s1"]).

(** A host alone in a fresh room, and that room written out. *)
Definition hosted_world : World :=
  world_of (play [Connect "s1"; CreateRoom "s1" (Some "Amy") 0]).

Definition fresh_room : Room :=
  mkRoom "s1" "Amy" [] demo {[ "Lead" := null; "Sidekick" := null ]} lobby 0.

(** The cast session after Amy, its host, created a second room: the
    next code drawn is EFGH. *)
Definition abandoned_world : World :=
  world_of (handle catalogue rnd_id 1 (CreateRoom "s1" (Some "Amy") 1) lobby_world).

Definition amy_again : SocketData := mkData (Some "EFGH") (Some host) (Some "Amy").

(** The cast session after Amy gave her part back. *)
Definition uncast_world : World :=
  world_of (handle catalogue rnd_id 1 (ClaimCharacter "s1" "Lead") lobby_world).

(** The entry of the one-line script, for script objects without
    author, description and difficulty. *)
Definition oneliner_info : ScriptInfo :=
  mkScriptInfo 1 "One line" null null [mkCharacterInfo "Solo" 1 null] 1.

(** The cast session after Ben left, and its room. *)
Definition left_world : World :=
  world_of (handle catalogue rnd_id 1 (Disconnect "s2") lobby_world).

Definition left_room : Room :=
  mkRoom "s1" "Amy" [] demo {[ "Lead" := str "Amy"; "Sidekick" := null ]} lobby 0.

(** * Proofs *)

(** ** Running the monad symbolically *)

Ltac munfold1 :=
  unfold mbind, M_bind, mret, M_ret, skip, get, modify, emit, put_room, set_data,
    socket_data, setTimeout, throw, out_of_fuel, with_rooms, with_sockets,
    with_timers in *.

Ltac munfold := repeat (progress munfold1).

Lemma room_of_Some w c code room :
  room_of w c = Some (code, room) ↔ c = Some code ∧ code ≠ "" ∧ rooms w !! code = Some room.
Proof.
  unfold room_of. destruct c as [c|]; [|by intuition].
  destruct (String.eqb_spec c "") as [->|Hne].
  - split; [done|]. by intros ([= <-] & ? & _).
  - destruct (rooms w !! c) eqn:E; simpl.
    + split; [by intros [= <- <-]|]. intros ([= <-] & _ & H). rewrite E in H. by simplify_eq.
    + split; [done|]. intros ([= <-] & _ & H). by rewrite E in H.
Qed.

Lemma room_of_lookup w code room :
  code ≠ "" → rooms w !! code = Some room → room_of w (Some code) = Some (code, room).
Proof. intros. by apply room_of_Some. Qed.

(** Unfolds the helpers and splits on every test of the handler at hand. *)
Ltac mrun :=
  unfold broadcastPlayerList, broadcastAssignments, advanceBeat, sendCurrentBeat in *;
  repeat first
    [ progress munfold
    | progress simplify_eq/=
    | rewrite lookup_insert_eq in *
    | match goal with
      | H : room_of _ _ = Some _ |- _ =>
          apply room_of_Some in H; destruct H as (? & ? & ?)
      | H : ?m !! ?k = Some _ |- context [?m !! ?k] => rewrite H
      | |- context [default no_data (?m !! ?s)] => destruct (m !! s) eqn:?
      | H : String.eqb _ _ = false |- _ => apply String.eqb_neq in H
      | H : String.eqb _ _ = true |- _ => apply String.eqb_eq in H
      end
    | case_decide
    | case_match ].

(** Enters a handler that starts with
    [const { code, ... } = socket.data; if (!code || !rooms[code]) return;]. *)
Ltac enter Hd Hc Hne Hr :=
  munfold; rewrite Hd; simpl; rewrite Hc; rewrite (room_of_lookup _ _ _ Hne Hr).

Section ServerFacts.

Variable preparedScripts : list Script.
Variable rnd : nat → nat.

Lemma from_socket_inv sid m w w' :
  from_socket sid m w = Ok tt w' → w' = w ∨ m w = Ok tt w'.
Proof.
  unfold from_socket. munfold. case_decide; [by right|]. intros [= <-]. by left.
Qed.

(** *** Code generation *)

Lemma generateCode_loop_frame n code w c w' :
  generateCode_loop rnd n code w = Ok c w' →
  rooms w' = rooms w ∧ sockets w' = sockets w ∧ timers w' = timers w
  ∧ now w' = now w ∧ emitted w' = emitted w.
Proof.
  revert code w. induction n as [|n IH]; intros code w; simpl.
  - munfold. by intros [= <- <-].
  - unfold floor_random. munfold. intros H. by apply IH in H.
Qed.

Lemma makeUniqueCode_frame fuel w c w' :
  makeUniqueCode rnd fuel w = Ok c w' →
  rooms w !! c = None
  ∧ rooms w' = rooms w ∧ sockets w' = sockets w ∧ timers w' = timers w
  ∧ now w' = now w ∧ emitted w' = emitted w.
Proof.
  revert w. induction fuel as [|fuel IH]; intros w; simpl; [done|].
  munfold. destruct (generateCode rnd w) as [c0 w0| |] eqn:E; try done.
  apply generateCode_loop_frame in E. destruct E as (E1 & E2 & E3 & E4 & E5).
  case_decide as Hc.
  - intros H. apply IH in H. rewrite E1, E2, E3, E4, E5 in H. done.
  - intros [= <- <-]. rewrite <- E1. split; [by apply eq_None_not_Some|done].
Qed.

Lemma makeUniqueCode_never_throws fuel w w' : makeUniqueCode rnd fuel w ≠ Throw w'.
Proof.
  revert w. induction fuel as [|fuel IH]; intros w; simpl; [done|].
  munfold. destruct (generateCode rnd w) as [c0 w0| |] eqn:E.
  - case_decide; [apply IH|done].
  - exfalso. revert E. unfold generateCode. simpl. unfold floor_random. by munfold.
  - done.
Qed.

Lemma append_cons a s t : String a s +:+ t = String a (s +:+ t).
Proof. reflexivity. Qed.

Lemma append_empty_r s : s +:+ "" = s.
Proof. induction s as [|a s IH]; [done|]. by rewrite append_cons, IH. Qed.

Lemma append_assoc s1 s2 s3 : (s1 +:+ s2) +:+ s3 = s1 +:+ (s2 +:+ s3).
Proof. induction s1 as [|a s1 IH]; [done|]. by rewrite !append_cons, IH. Qed.

Lemma chars_length s : String.length s = length (String.list_ascii_of_string s).
Proof. induction s as [|a s IH]; simpl; [done|]. by rewrite IH. Qed.

Lemma char_at_alphabet i :
  (i < 32)%nat → ∃ a, char_at chars i = String a "" ∧ a ∈ alphabet.
Proof.
  intros Hi. unfold char_at.
  do 32 (destruct i as [|i];
         [eexists; split; [reflexivity|by apply (bool_decide_unpack _); vm_compute]|]).
  lia.
Qed.

Lemma generateCode_loop_spec n code w c w' :
  generateCode_loop rnd n code w = Ok c w' →
  ∃ suffix, c = code +:+ suffix
    ∧ length (String.list_ascii_of_string suffix) = n
    ∧ Forall (λ a, a ∈ alphabet) (String.list_ascii_of_string suffix).
Proof.
  revert code w. induction n as [|n IH]; intros code w; simpl.
  - munfold. intros [= <- <-]. exists "". split_and!; [|done|by constructor].
    by rewrite append_empty_r.
  - unfold floor_random. munfold. intros H. apply IH in H as (suffix & -> & Hlen & Hall).
    destruct (char_at_alphabet (rnd (drawn w) mod 32)) as (a & -> & Ha).
    { by apply Nat.mod_upper_bound. }
    exists (String a suffix). split_and!.
    + by rewrite append_assoc.
    + simpl. by rewrite Hlen.
    + simpl. by constructor.
Qed.

Lemma generateCode_ok w c w' : generateCode rnd w = Ok c w' → code_ok c.
Proof.
  intros H. apply generateCode_loop_spec in H as (suffix & -> & Hlen & Hall).
  change ("" +:+ suffix) with suffix. split; [by rewrite chars_length|done].
Qed.

Lemma makeUniqueCode_ok fuel w c w' : makeUniqueCode rnd fuel w = Ok c w' → code_ok c.
Proof.
  revert w. induction fuel as [|fuel IH]; intros w; simpl; [done|].
  munfold. destruct (generateCode rnd w) as [c0 w0| |] eqn:E; try done.
  case_decide; [apply IH|]. intros [= <- <-]. by eapply generateCode_ok.
Qed.

Lemma code_ok_nonempty c : code_ok c → c ≠ "".
Proof. by intros [Hlen _] ->. Qed.

(** *** The beat index stays inside the script *)

Ltac bound_facts Hb :=
  repeat match goal with
    | H : rooms _ !! _ = Some ?r |- _ =>
        lazymatch goal with
        | _ : bounded r |- _ => fail
        | _ => pose proof (map_Forall_lookup_1 _ _ _ _ Hb H : bounded r)
        end
    end.

Ltac bound_leaf Hb :=
  bound_facts Hb;
  unfold beat_bound in *; simpl; rewrite ?insert_insert_eq;
  repeat first [ apply map_Forall_insert_2 | apply map_Forall_delete ];
  try assumption;
  unfold bounded in *; simpl in *; intros; try done; try lia; eauto.

Lemma sendCurrentBeat_bound code w w' :
  beat_bound w → sendCurrentBeat code w = Ok tt w' → beat_bound w'.
Proof. intros Hb. mrun; intros; simplify_eq; bound_leaf Hb. Qed.

Lemma advanceBeat_bound code w w' :
  beat_bound w → advanceBeat code w = Ok tt w' → beat_bound w'.
Proof. intros Hb. mrun; intros; simplify_eq; bound_leaf Hb. Qed.

Lemma timer_callback_bound t w w' :
  beat_bound w → timer_callback t w = Ok tt w' → beat_bound w'.
Proof. intros Hb. unfold timer_callback. mrun; intros; simplify_eq; bound_leaf Hb. Qed.

Lemma on_create_room_bound fuel sid name scriptIndex w w' :
  beat_bound w → on_create_room preparedScripts rnd fuel sid name scriptIndex w = Ok tt w' →
  beat_bound w'.
Proof.
  intros Hb. unfold on_create_room. repeat munfold.
  destruct (String.eqb (trim _) _).
  - intros; simplify_eq; bound_leaf Hb.
  - destruct (makeUniqueCode rnd fuel w) as [c w0| |] eqn:E; try done.
    apply makeUniqueCode_frame in E. destruct E as (_ & E & _).
    mrun; intros; simplify_eq; unfold beat_bound in *; simpl; rewrite E;
      apply map_Forall_insert_2; done.
Qed.

Lemma on_join_room_bound sid code name w w' :
  beat_bound w → on_join_room sid code name w = Ok tt w' → beat_bound w'.
Proof. intros Hb. unfold on_join_room. mrun; intros; simplify_eq; bound_leaf Hb. Qed.

Lemma on_claim_character_bound sid character w w' :
  beat_bound w → on_claim_character sid character w = Ok tt w' → beat_bound w'.
Proof. intros Hb. unfold on_claim_character. mrun; intros; simplify_eq; bound_leaf Hb. Qed.

Lemma on_force_assign_bound sid character toPlayer w w' :
  beat_bound w → on_force_assign sid character toPlayer w = Ok tt w' → beat_bound w'.
Proof. intros Hb. unfold on_force_assign. mrun; intros; simplify_eq; bound_leaf Hb. Qed.

Lemma on_boot_player_bound sid playerName w w' :
  beat_bound w → on_boot_player sid playerName w = Ok tt w' → beat_bound w'.
Proof. intros Hb. unfold on_boot_player. mrun; intros; simplify_eq; bound_leaf Hb. Qed.

Lemma on_start_performance_bound sid w w' :
  beat_bound w → on_start_performance sid w = Ok tt w' → beat_bound w'.
Proof.
  intros Hb. unfold on_start_performance. mrun; intros; simplify_eq; bound_leaf Hb.
  all: match goal with H : _ !! 0 = Some _ |- _ => apply lookup_lt_Some in H end; done.
Qed.

Lemma on_beat_done_bound sid w w' :
  beat_bound w → on_beat_done sid w = Ok tt w' → beat_bound w'.
Proof. intros Hb. unfold on_beat_done. mrun; intros; simplify_eq; bound_leaf Hb. Qed.

Lemma on_disconnect_bound sid w w' :
  beat_bound w → on_disconnect sid w = Ok tt w' → beat_bound w'.
Proof. intros Hb. unfold on_disconnect. mrun; intros; simplify_eq; bound_leaf Hb. Qed.

Lemma handle_bound fuel i w w' :
  beat_bound w → handle preparedScripts rnd fuel i w = Ok tt w' → beat_bound w'.
Proof.
  intros Hb H. destruct i; simpl in H;
    try (apply from_socket_inv in H as [->|H]; [done|]).
  - revert H. mrun; intros; simplify_eq; bound_leaf Hb.
  - revert H. unfold on_ping. mrun; intros; simplify_eq; bound_leaf Hb.
  - by eapply on_create_room_bound.
  - by eapply on_join_room_bound.
  - by eapply on_claim_character_bound.
  - by eapply on_force_assign_bound.
  - by eapply on_boot_player_bound.
  - by eapply on_start_performance_bound.
  - by eapply on_beat_done_bound.
  - by eapply on_disconnect_bound.
  - revert H. unfold fire. munfold. repeat first [case_decide | case_match];
      intros; simplify_eq; try done.
    match goal with
    | H : timer_callback _ ?w0 = Ok _ _ |- _ =>
        apply (timer_callback_bound _ w0) in H; [done|bound_leaf Hb]
    end.
  - revert H. mrun; intros; simplify_eq; bound_leaf Hb.
Qed.

(** *** Uncaught errors *)

Ltac throw_leaf Hb :=
  bound_facts Hb; unfold bounded in *;
  repeat match goal with
    | H : _ !! _ = None |- _ => apply lookup_ge_None in H
    end;
  simpl in *; try done; try lia;
  try (exfalso;
       match goal with H : _ → (_ < _)%nat |- _ => specialize (H ltac:(done)) end;
       lia).

(** With the beat index in range, the only handlers that can throw are
    start-performance, on a script without beats, and create-room, on
    an empty catalogue. *)
Lemma handle_throws fuel i w w' :
  beat_bound w → handle preparedScripts rnd fuel i w = Throw w' →
  (∃ sid code room,
      i = StartPerformance sid ∧ rooms w !! code = Some room ∧ beats (script room) = [])
  ∨ (∃ sid name scriptIndex, i = CreateRoom sid name scriptIndex ∧ preparedScripts = []).
Proof.
  intros Hb H. destruct i; simpl in H; unfold from_socket in H; revert H.
  - mrun; done.
  - unfold on_ping. mrun; done.
  - unfold on_create_room. munfold. case_decide; [|done].
    destruct (String.eqb (trim _) _); [done|].
    destruct (makeUniqueCode rnd fuel w) as [c w0| |] eqn:E; [| |done].
    + mrun; try done. intros _. right. eexists _, _, _. split; [done|].
      by destruct preparedScripts.
    + by apply makeUniqueCode_never_throws in E.
  - unfold on_join_room. mrun; done.
  - unfold on_claim_character. mrun; done.
  - unfold on_force_assign. mrun; intros; simplify_eq; throw_leaf Hb.
  - unfold on_boot_player. mrun; intros; simplify_eq; throw_leaf Hb.
  - unfold on_start_performance. mrun; intros; simplify_eq; try done.
    left. eexists _, _, _. split_and!; [done|done|].
    match goal with H : _ !! 0 = None |- _ => apply lookup_ge_None in H; simpl in H end.
    by apply nil_length_inv, Nat.le_0_r.
  - unfold on_beat_done. mrun; intros; simplify_eq; throw_leaf Hb.
  - unfold on_disconnect. mrun; done.
  - unfold fire, timer_callback. mrun; intros; simplify_eq; throw_leaf Hb.
  - mrun; done.
Qed.

Ltac script_leaf Hk :=
  repeat match goal with
    | H : rooms _ !! _ = Some ?r |- _ =>
        lazymatch goal with
        | _ : script r ∈ _ |- _ => fail
        | _ => pose proof (map_Forall_lookup_1 _ _ _ _ Hk H : script r ∈ _)
        end
    end;
  unfold scripts_known in *; simpl; rewrite ?insert_insert_eq;
  repeat first [ apply map_Forall_insert_2 | apply map_Forall_delete ];
  try assumption; simpl; try done.

Lemma handle_scripts fuel i w w' :
  scripts_known preparedScripts w → handle preparedScripts rnd fuel i w = Ok tt w' →
  scripts_known preparedScripts w'.
Proof.
  intros Hk H. destruct i; simpl in H;
    try (apply from_socket_inv in H as [->|H]; [done|]); revert H.
  - mrun; intros; simplify_eq; script_leaf Hk.
  - unfold on_ping. mrun; intros; simplify_eq; script_leaf Hk.
  - unfold on_create_room. munfold. destruct (String.eqb (trim _) _).
    + intros; simplify_eq; script_leaf Hk.
    + destruct (makeUniqueCode rnd fuel w) as [c w0| |] eqn:E; try done.
      apply makeUniqueCode_frame in E. destruct E as (_ & E & _).
      unfold script_at. mrun; intros; simplify_eq; unfold scripts_known in *; simpl;
        rewrite E; (apply map_Forall_insert_2; [|done]); simpl;
        by eapply list_elem_of_lookup_2.
  - unfold on_join_room. mrun; intros; simplify_eq; script_leaf Hk.
  - unfold on_claim_character. mrun; intros; simplify_eq; script_leaf Hk.
  - unfold on_force_assign. mrun; intros; simplify_eq; script_leaf Hk.
  - unfold on_boot_player. mrun; intros; simplify_eq; script_leaf Hk.
  - unfold on_start_performance. mrun; intros; simplify_eq; script_leaf Hk.
  - unfold on_beat_done. mrun; intros; simplify_eq; script_leaf Hk.
  - unfold on_disconnect. mrun; intros; simplify_eq; script_leaf Hk.
  - unfold fire, timer_callback. mrun; intros; simplify_eq; script_leaf Hk.
  - mrun; intros; simplify_eq; script_leaf Hk.
Qed.

(** *** Names, owners and socket data stay well formed *)

Lemma owner_ok_null : owner_ok null.
Proof. by left. Qed.

Lemma owner_ok_str n : n ≠ "" → owner_ok (str n).
Proof. right. by exists n. Qed.

Lemma owner_ok_js_or v : owner_ok (js_or v null).
Proof.
  unfold js_or. destruct v as [| |n]; simpl; try apply owner_ok_null.
  destruct (String.eqb_spec n ""); simpl; [apply owner_ok_null|by apply owner_ok_str].
Qed.


Lemma data_ok_name d code :
  data_ok d → d_code d = Some code → owner_ok (of_field (d_name d)).
Proof. intros Hd Hc. destruct (Hd _ Hc) as (_ & _ & n & -> & Hn). by apply owner_ok_str. Qed.

Lemma prop_str a ch n : prop a ch = str n ↔ a !! ch = Some (str n).
Proof. unfold prop. destruct (a !! ch) as [v|]; split; intros; by simplify_eq. Qed.

Lemma assignments_ok_insert s a ch v :
  assignments_ok s a → a !! ch ≠ None → owner_ok v → assignments_ok s (<[ch:=v]> a).
Proof.
  intros [Hk Hv] Hch Hov. split.
  - intros x. rewrite lookup_insert_is_Some, <- Hk. split.
    + intros [<-|[_ H]]; [by apply not_eq_None_Some|done].
    + intros H. destruct (decide (ch = x)); [by left|by right].
  - by apply map_Forall_insert_2.
Qed.

Lemma assignments_ok_release s a name : assignments_ok s a → assignments_ok s (release name a).
Proof.
  intros [Hk Hv]. unfold release. split.
  - intros x. by rewrite lookup_fmap, fmap_is_Some.
  - apply map_Forall_fmap. intros x v Hx. simpl.
    case_decide; [apply owner_ok_null|by apply (Hv x)].
Qed.

Lemma unassigned_lookup cs ch :
  unassigned cs !! ch = if decide (ch ∈ c_name <$> cs) then Some null else None.
Proof.
  unfold unassigned. induction cs as [|c cs IH] using rev_ind.
  - simpl. by rewrite lookup_empty.
  - rewrite foldl_snoc, fmap_snoc, lookup_insert, IH.
    destruct (decide (c_name c = ch)) as [<-|Hc].
    + rewrite decide_True; [done|]. apply elem_of_app. right. by apply list_elem_of_singleton.
    + destruct (decide (ch ∈ c_name <$> cs)) as [Hin|Hin].
      * rewrite decide_True; [done|]. apply elem_of_app. by left.
      * rewrite decide_False; [done|]. rewrite elem_of_app. intros [?|Hx]; [done|].
        apply list_elem_of_singleton in Hx. done.
Qed.

Lemma assignments_ok_unassigned s : assignments_ok s (unassigned (characters s)).
Proof.
  split.
  - intros ch. rewrite unassigned_lookup. case_decide; [by split; eauto|].
    split; [by intros [? ?]|done].
  - intros ch v. rewrite unassigned_lookup. case_decide; [|done].
    intros [= <-]. apply owner_ok_null.
Qed.

Lemma names_filter (P : Player → Prop) `{∀ p, Decision (P p)} ps :
  Forall (λ p, p_name p ≠ "") ps → Forall (λ p, p_name p ≠ "") (filter P ps).
Proof.
  rewrite !Forall_forall. intros Hps p Hp. apply list_elem_of_filter in Hp as [_ Hp]. auto.
Qed.

Ltac wf_facts Hrooms Hsocks :=
  repeat match goal with
    | H : rooms _ !! ?c = Some ?r |- _ =>
        lazymatch goal with
        | _ : cast_ok r |- _ => fail
        | _ => let Hc := fresh "Hcode" in let Hr := fresh "Hcast" in
               destruct (Hrooms c r H) as [Hc Hr]
        end
    | H : sockets _ !! ?s = Some ?d |- _ =>
        lazymatch goal with
        | _ : data_ok d |- _ => fail
        | _ => pose proof (Hsocks s d H : data_ok d)
        end
    end.

Lemma prop_str_key a ch n : prop a ch = str n → a !! ch ≠ None.
Proof. intros H. apply prop_str in H. by rewrite H. Qed.

Lemma names_snoc ps p :
  Forall (λ p, p_name p ≠ "") ps → p_name p ≠ "" → Forall (λ p, p_name p ≠ "") (ps ++ [p]).
Proof. intros Hps Hp. apply Forall_app_2; [done|]. by repeat constructor. Qed.

Lemma data_ok_set code role name :
  code ≠ "" → name ≠ "" → data_ok (mkData (Some code) (Some role) (Some name)).
Proof. intros Hc Hn c [= <-]. split_and!; [done|by eexists|by eexists]. Qed.

Ltac cast_leaf :=
  match goal with
  | Hc : cast_ok ?r |- _ =>
      let Hh := fresh "Hhost" in let Hp := fresh "Hplayers" in let Ha := fresh "Hassign" in
      destruct Hc as (Hh & Hp & Ha)
  end;
  unfold cast_ok; simpl; split_and!;
  eauto using assignments_ok_insert, assignments_ok_release, owner_ok_js_or, owner_ok_null,
    owner_ok_str, data_ok_name, names_filter, names_snoc, prop_str_key.

Ltac wf_leaf Hrooms Hsocks :=
  wf_facts Hrooms Hsocks;
  unfold wf_world; simpl; rewrite ?insert_insert_eq; split;
  [ repeat first [ apply map_Forall_insert_2 | apply map_Forall_delete ];
    try assumption; try (split; [done|cast_leaf])
  | repeat first [ apply map_Forall_insert_2 | apply map_Forall_delete ];
    try assumption; try (by apply data_ok_set) ].

Lemma advanceBeat_wf code w w' : wf_world w → advanceBeat code w = Ok tt w' → wf_world w'.
Proof. intros [Hr Hs]. mrun; intros; simplify_eq; wf_leaf Hr Hs. Qed.

Lemma timer_callback_wf t w w' : wf_world w → timer_callback t w = Ok tt w' → wf_world w'.
Proof. intros [Hr Hs]. unfold timer_callback. mrun; intros; simplify_eq; wf_leaf Hr Hs. Qed.

Lemma on_join_room_wf sid code name w w' :
  wf_world w → on_join_room sid code name w = Ok tt w' → wf_world w'.
Proof.
  intros [Hr Hs]. unfold on_join_room. mrun; intros; simplify_eq; wf_leaf Hr Hs.
Qed.

Lemma on_claim_character_wf sid character w w' :
  wf_world w → on_claim_character sid character w = Ok tt w' → wf_world w'.
Proof.
  intros [Hr Hs]. unfold on_claim_character. mrun; intros; simplify_eq; wf_leaf Hr Hs.
Qed.

Lemma on_force_assign_wf sid character toPlayer w w' :
  wf_world w → on_force_assign sid character toPlayer w = Ok tt w' → wf_world w'.
Proof.
  intros [Hr Hs]. unfold on_force_assign. mrun; intros; simplify_eq; wf_leaf Hr Hs.
Qed.

Lemma on_boot_player_wf sid playerName w w' :
  wf_world w → on_boot_player sid playerName w = Ok tt w' → wf_world w'.
Proof.
  intros [Hr Hs]. unfold on_boot_player. mrun; intros; simplify_eq; wf_leaf Hr Hs.
Qed.

Lemma on_start_performance_wf sid w w' :
  wf_world w → on_start_performance sid w = Ok tt w' → wf_world w'.
Proof.
  intros [Hr Hs]. unfold on_start_performance. mrun; intros; simplify_eq; wf_leaf Hr Hs.
Qed.

Lemma on_beat_done_wf sid w w' :
  wf_world w → on_beat_done sid w = Ok tt w' → wf_world w'.
Proof.
  intros [Hr Hs]. unfold on_beat_done. mrun; intros; simplify_eq; wf_leaf Hr Hs.
Qed.

Lemma on_disconnect_wf sid w w' :
  wf_world w → on_disconnect sid w = Ok tt w' → wf_world w'.
Proof.
  intros [Hr Hs]. unfold on_disconnect. mrun; intros; simplify_eq; wf_leaf Hr Hs.
Qed.

Lemma on_create_room_wf fuel sid name scriptIndex w w' :
  wf_world w → on_create_room preparedScripts rnd fuel sid name scriptIndex w = Ok tt w' →
  wf_world w'.
Proof.
  intros [Hr Hs]. unfold on_create_room. munfold.
  destruct (String.eqb_spec (trim (default "" name)) "") as [|Hname].
  - intros; simplify_eq; wf_leaf Hr Hs.
  - destruct (makeUniqueCode rnd fuel w) as [c w0| |] eqn:E; try done.
    pose proof (code_ok_nonempty _ (makeUniqueCode_ok _ _ _ _ E)) as Hc.
    apply makeUniqueCode_frame in E. destruct E as (_ & E1 & E2 & _).
    mrun; intros; simplify_eq; unfold wf_world; simpl; rewrite E1, E2.
    all: split; apply map_Forall_insert_2; try done; try by apply data_ok_set.
    all: split; [done|]; split_and!; simpl; try done; apply assignments_ok_unassigned.
Qed.

Lemma handle_wf fuel i w w' :
  wf_world w → handle preparedScripts rnd fuel i w = Ok tt w' → wf_world w'.
Proof.
  intros Hwf H. destruct i; simpl in H;
    try (apply from_socket_inv in H as [->|H]; [done|]).
  - destruct Hwf as [Hr Hs]. revert H. mrun; intros; simplify_eq; wf_leaf Hr Hs.
    by intros c.
  - destruct Hwf as [Hr Hs]. revert H. unfold on_ping. mrun; intros; simplify_eq.
    wf_leaf Hr Hs.
  - by eapply on_create_room_wf.
  - by eapply on_join_room_wf.
  - by eapply on_claim_character_wf.
  - by eapply on_force_assign_wf.
  - by eapply on_boot_player_wf.
  - by eapply on_start_performance_wf.
  - by eapply on_beat_done_wf.
  - by eapply on_disconnect_wf.
  - revert H. unfold fire. munfold. repeat first [case_decide | case_match];
      intros; simplify_eq; try done.
    match goal with
    | H : timer_callback _ ?w0 = Ok _ _ |- _ =>
        apply (timer_callback_wf _ w0) in H; [done|]
    end.
    destruct Hwf as [Hr Hs]. wf_leaf Hr Hs.
  - destruct Hwf as [Hr Hs]. revert H. mrun; intros; simplify_eq. wf_leaf Hr Hs.
Qed.

(** *** Ended rooms *)

Lemma quiet_for_refl code l : quiet_for code l l.
Proof. exists []. split; [by rewrite app_nil_r|constructor]. Qed.

Lemma quiet_for_snoc code l l1 e :
  quiet_for code l l1 → ¬ is_beat_for code e → quiet_for code l (l1 ++ [e]).
Proof.
  intros (out & -> & Hout) He. exists (out ++ [e]). split; [by rewrite app_assoc|].
  apply Forall_app_2; [done|by repeat constructor].
Qed.

Ltac quiet_leaf :=
  simpl; repeat (apply quiet_for_snoc; [|intros (? & ? & ? & ? & ?); simplify_eq; congruence]);
  try apply quiet_for_refl.

Ltac ended_leaf :=
  try congruence;
  unfold still_ended; simpl; rewrite ?insert_insert_eq;
  rewrite ?lookup_insert, ?lookup_delete; repeat case_decide; simplify_eq/=;
  try congruence; eauto 10.

Lemma advanceBeat_ended c0 code room w w' :
  rooms w !! code = Some room → state room = ended →
  advanceBeat c0 w = Ok tt w' →
  still_ended code (currentBeat room) w' ∧ quiet_for code (emitted w) (emitted w').
Proof.
  intros Hr Hs. mrun; intros; simplify_eq; (split; [ended_leaf|quiet_leaf]).
Qed.

Lemma timer_callback_ended t code room w w' :
  rooms w !! code = Some room → state room = ended →
  timer_callback t w = Ok tt w' →
  still_ended code (currentBeat room) w' ∧ quiet_for code (emitted w) (emitted w').
Proof.
  intros Hr Hs. unfold timer_callback.
  mrun; intros; simplify_eq; (split; [ended_leaf|quiet_leaf]).
Qed.

Lemma on_create_room_ended fuel sid name scriptIndex code room w w' :
  rooms w !! code = Some room → state room = ended →
  on_create_room preparedScripts rnd fuel sid name scriptIndex w = Ok tt w' →
  still_ended code (currentBeat room) w' ∧ quiet_for code (emitted w) (emitted w').
Proof.
  intros Hr Hs. unfold on_create_room. munfold.
  destruct (String.eqb (trim _) _).
  - intros; simplify_eq; (split; [ended_leaf|quiet_leaf]).
  - destruct (makeUniqueCode rnd fuel w) as [c w0| |] eqn:E; try done.
    apply makeUniqueCode_frame in E. destruct E as (Hc & E1 & _ & _ & _ & E2).
    mrun; intros; simplify_eq; (split; [unfold still_ended; simpl|simpl; rewrite E2; quiet_leaf]).
    all: rewrite E1, lookup_insert_ne by congruence; eauto 10.
Qed.

Lemma on_join_room_ended sid c0 name code room w w' :
  rooms w !! code = Some room → state room = ended →
  on_join_room sid c0 name w = Ok tt w' →
  still_ended code (currentBeat room) w' ∧ quiet_for code (emitted w) (emitted w').
Proof.
  intros Hr Hs. unfold on_join_room.
  mrun; intros; simplify_eq; (split; [ended_leaf|quiet_leaf]).
Qed.

Lemma on_claim_character_ended sid character code room w w' :
  rooms w !! code = Some room → state room = ended →
  on_claim_character sid character w = Ok tt w' →
  still_ended code (currentBeat room) w' ∧ quiet_for code (emitted w) (emitted w').
Proof.
  intros Hr Hs. unfold on_claim_character.
  mrun; intros; simplify_eq; (split; [ended_leaf|quiet_leaf]).
Qed.

Lemma on_force_assign_ended sid character toPlayer code room w w' :
  rooms w !! code = Some room → state room = ended →
  on_force_assign sid character toPlayer w = Ok tt w' →
  still_ended code (currentBeat room) w' ∧ quiet_for code (emitted w) (emitted w').
Proof.
  intros Hr Hs. unfold on_force_assign.
  mrun; intros; simplify_eq; (split; [ended_leaf|quiet_leaf]).
Qed.

Lemma on_boot_player_ended sid playerName code room w w' :
  rooms w !! code = Some room → state room = ended →
  on_boot_player sid playerName w = Ok tt w' →
  still_ended code (currentBeat room) w' ∧ quiet_for code (emitted w) (emitted w').
Proof.
  intros Hr Hs. unfold on_boot_player.
  mrun; intros; simplify_eq; (split; [ended_leaf|quiet_leaf]).
Qed.

Lemma on_beat_done_ended sid code room w w' :
  rooms w !! code = Some room → state room = ended →
  on_beat_done sid w = Ok tt w' →
  still_ended code (currentBeat room) w' ∧ quiet_for code (emitted w) (emitted w').
Proof.
  intros Hr Hs. unfold on_beat_done.
  mrun; intros; simplify_eq; (split; [ended_leaf|quiet_leaf]).
Qed.

Lemma on_disconnect_ended sid code room w w' :
  rooms w !! code = Some room → state room = ended →
  on_disconnect sid w = Ok tt w' →
  still_ended code (currentBeat room) w' ∧ quiet_for code (emitted w) (emitted w').
Proof.
  intros Hr Hs. unfold on_disconnect.
  mrun; intros; simplify_eq; (split; [ended_leaf|quiet_leaf]).
Qed.

Lemma handle_ended fuel i code room w w' :
  rooms w !! code = Some room → state room = ended →
  (∀ sid, i ≠ StartPerformance sid) →
  handle preparedScripts rnd fuel i w = Ok tt w' →
  still_ended code (currentBeat room) w' ∧ quiet_for code (emitted w) (emitted w').
Proof.
  intros Hr Hs Hi H.
  assert (still_ended code (currentBeat room) w
          ∧ quiet_for code (emitted w) (emitted w)) as Hsame.
  { split; [right; eauto|apply quiet_for_refl]. }
  destruct i; simpl in H;
    try (apply from_socket_inv in H as [->|H]; [done|]).
  - revert H. mrun; intros; simplify_eq; (split; [ended_leaf|quiet_leaf]).
  - revert H. unfold on_ping. mrun; intros; simplify_eq; (split; [ended_leaf|quiet_leaf]).
  - by eapply on_create_room_ended.
  - by eapply on_join_room_ended.
  - by eapply on_claim_character_ended.
  - by eapply on_force_assign_ended.
  - by eapply on_boot_player_ended.
  - by destruct (Hi sid).
  - by eapply on_beat_done_ended.
  - by eapply on_disconnect_ended.
  - revert H. unfold fire. munfold. repeat first [case_decide | case_match];
      intros; simplify_eq; try done.
    match goal with
    | H : timer_callback _ ?w0 = Ok _ _ |- _ =>
        apply (timer_callback_ended _ code room w0) in H; done
    end.
  - revert H. mrun; intros; simplify_eq; (split; [ended_leaf|quiet_leaf]).
Qed.

(** *** Invariants of the running server *)

Lemma init_wf : wf_world init.
Proof. split; apply map_Forall_empty. Qed.

Lemma init_bound : beat_bound init.
Proof. apply map_Forall_empty. Qed.

Lemma reachable_wf w : reachable preparedScripts rnd w → wf_world w.
Proof. induction 1; [apply init_wf|by eapply handle_wf]. Qed.

Lemma reachable_bound w : reachable preparedScripts rnd w → beat_bound w.
Proof. induction 1; [apply init_bound|by eapply handle_bound]. Qed.

Lemma reachable_scripts w : reachable preparedScripts rnd w → scripts_known preparedScripts w.
Proof. induction 1; [apply map_Forall_empty|by eapply handle_scripts]. Qed.

(** A server whose catalogue has a script, and only scripts with a
    beat, never throws. *)
Lemma reachable_never_throws fuel i w w' :
  preparedScripts ≠ [] → Forall (λ s, beats s ≠ []) preparedScripts →
  reachable preparedScripts rnd w →
  handle preparedScripts rnd fuel i w ≠ Throw w'.
Proof.
  intros Hcat Hbeats Hw H.
  apply handle_throws in H; [|by apply reachable_bound].
  destruct H as [(sid & code & room & _ & Hr & Hb)|(? & ? & ? & _ & ?)]; [|done].
  pose proof (reachable_scripts w Hw code room Hr) as Hin. simpl in Hin.
  rewrite Forall_forall in Hbeats. by apply (Hbeats _ Hin).
Qed.

Lemma run_reachable fuel inputs w w' :
  reachable preparedScripts rnd w → run preparedScripts rnd fuel inputs w = Ok tt w' →
  reachable preparedScripts rnd w'.
Proof.
  revert w. induction inputs as [|i inputs IH]; intros w Hw; simpl.
  - munfold. by intros [= <-].
  - munfold. destruct (handle preparedScripts rnd fuel i w) as [[] w1| |] eqn:E; try done.
    apply IH. by eapply reachable_step.
Qed.

End ServerFacts.

(** ** The room state machine *)

Section Claims.

Variable preparedScripts : list Script.
Variable rnd : nat → nat.

Local Abbreviation reachable := (reachable preparedScripts rnd).
Local Abbreviation handle := (handle preparedScripts rnd).
Local Abbreviation run := (run preparedScripts rnd).

(** What a socket of a running server knows about itself. *)
Lemma reachable_socket w sid d code :
  reachable w → sockets w !! sid = Some d → d_code d = Some code →
  code ≠ "" ∧ is_Some (d_role d) ∧ ∃ n, d_name d = Some n ∧ n ≠ "".
Proof. intros Hw Hd Hc. apply reachable_wf in Hw as [_ Hs]. by apply (Hs sid d Hd). Qed.

Lemma reachable_room w code room :
  reachable w → rooms w !! code = Some room → code ≠ "" ∧ cast_ok room ∧ bounded room.
Proof.
  intros Hw Hr. pose proof (reachable_bound _ _ _ Hw code room Hr) as Hb.
  apply reachable_wf in Hw as [Hrs _]. destruct (Hrs code room Hr). done.
Qed.

Lemma advanceBeat_advances code room w :
  rooms w !! code = Some room → state room = performance →
  ∃ w', advanceBeat code w = Ok tt w'
    ∧ rooms w' = <[code := advanced room]> (rooms w)
    ∧ sockets w' = sockets w.
Proof.
  intros Hr Hs. unfold advanced. mrun; try (eexists; split_and!; [done|..]; simpl).
  all: rewrite ?insert_insert_eq; try done.
  match goal with H : _ !! _ = None |- _ => apply lookup_ge_None in H end. simpl in *. lia.
Qed.

Lemma advanced_currentBeat room : currentBeat (advanced room) = S (currentBeat room).
Proof. unfold advanced. by case_decide. Qed.

(** *** Room creation *)

Lemma generateCode_eq w :
  generateCode rnd w
  = Ok (code_at rnd (drawn w))
       (mkWorld (rooms w) (sockets w) (timers w) (now w) (emitted w) (4 + drawn w)).
Proof. reflexivity. Qed.

(** The loop of [makeUniqueCode] ends as soon as a draw gives a free
    code. *)
Lemma makeUniqueCode_total k fuel w :
  (k < fuel)%nat → rooms w !! code_at rnd (drawn w + 4 * k) = None →
  ∃ c w', makeUniqueCode rnd fuel w = Ok c w'.
Proof.
  revert fuel w. induction k as [|k IH]; intros fuel w Hk Hfree;
    (destruct fuel as [|fuel]; [lia|]); simpl; munfold; rewrite generateCode_eq; simpl.
  - rewrite Nat.add_0_r in Hfree. rewrite decide_False; [by eexists _, _|].
    rewrite Hfree. by intros [? ?].
  - case_decide; [|by eexists _, _]. apply IH; [lia|].
    match goal with
    | |- _ !! code_at _ ?n = None =>
        by replace n with (drawn w + 4 * S k)%nat by (simpl; lia)
    end.
Qed.

Lemma alphabet_unambiguous a : a ∈ alphabet → a ∉ confusable.
Proof.
  revert a. apply Forall_forall. by apply (bool_decide_unpack _); vm_compute.
Qed.

(** C8: a create-room request with a non-blank name.  Whenever the
    handler returns, it has registered, under a code of exactly four
    characters of the alphabet (none of 0, O, 1, I) that no room of the
    registry had, a room whose script is the catalogue's script at
    [scriptIndex], or its first script when the index is out of range,
    with every character unassigned, in the lobby, at beat 0, and it
    has acknowledged with that code.  And it does return, provided the
    catalogue has a script and one of the first [fuel] draws gives a
    free code. *)
Theorem create_room_registers_fresh_room w fuel sid name scriptIndex :
  trim name ≠ "" →
  (∀ w', on_create_room preparedScripts rnd fuel sid (Some name) scriptIndex w = Ok tt w' →
     ∃ code script,
       String.length code = 4
       ∧ (∀ a, a ∈ String.list_ascii_of_string code → a ∈ alphabet ∧ a ∉ confusable)
       ∧ rooms w !! code = None
       ∧ ((0 ≤ scriptIndex < Z.of_nat (length preparedScripts))%Z →
            preparedScripts !! Z.to_nat scriptIndex = Some script)
       ∧ (¬ (0 ≤ scriptIndex < Z.of_nat (length preparedScripts))%Z →
            preparedScripts !! 0 = Some script)
       ∧ rooms w' =
           <[code := mkRoom sid (trim name) [] script
                       (unassigned (characters script)) lobby 0]> (rooms w)
       ∧ (∀ ch, unassigned (characters script) !! ch
                = if decide (ch ∈ c_name <$> characters script) then Some null else None)
       ∧ emitted w' = emitted w ++ [Callback sid (created code script)])
  ∧ (preparedScripts ≠ [] →
     ∀ k, (k < fuel)%nat → rooms w !! code_at rnd (drawn w + 4 * k) = None →
     ∃ w', on_create_room preparedScripts rnd fuel sid (Some name) scriptIndex w = Ok tt w').
Proof.
  intros Hname. apply String.eqb_neq in Hname. split.
  - intros w'. unfold on_create_room. munfold. simpl. rewrite Hname.
    destruct (makeUniqueCode rnd fuel w) as [c w0| |] eqn:E; try done.
    destruct (makeUniqueCode_ok _ _ _ _ _ E) as [Hlen Hchars].
    apply makeUniqueCode_frame in E. destruct E as (Hfree & E1 & _ & _ & _ & E2).
    destruct (match script_at preparedScripts scriptIndex with
              | Some s => Some s
              | None => preparedScripts !! 0
              end) as [script|] eqn:Es; [|done].
    simpl. intros [= <-]. exists c, script. simpl. rewrite E1, E2.
    split_and!; try done.
    + intros a Ha. rewrite Forall_forall in Hchars.
      split; [by apply Hchars|by apply alphabet_unambiguous, Hchars].
    + intros Hin. unfold script_at in Es. rewrite decide_True in Es by lia.
      destruct (preparedScripts !! Z.to_nat scriptIndex) as [s|] eqn:El; [done|].
      apply lookup_ge_None in El. lia.
    + intros Hout. unfold script_at in Es. case_decide as Hpos; [|done].
      destruct (preparedScripts !! Z.to_nat scriptIndex) as [s|] eqn:El; [|done].
      apply lookup_lt_Some in El. lia.
    + apply unassigned_lookup.
  - intros Hcat k Hk Hfree. unfold on_create_room. munfold. simpl. rewrite Hname.
    destruct (makeUniqueCode_total k fuel w Hk Hfree) as (c & w0 & ->).
    destruct (script_at preparedScripts scriptIndex) as [s|]; [by eexists|].
    destruct preparedScripts as [|s ss]; [done|]. by eexists.
Qed.

(** *** Joining *)

(** Join-room is refused during a performance, and a refused join
    changes nothing but the log. *)
Lemma join_room_refused sid code name w room :
  rooms w !! code = Some room → state room = performance →
  ∃ w', on_join_room sid code name w = Ok tt w'
    ∧ rooms w' = rooms w ∧ sockets w' = sockets w
    ∧ emitted w' = emitted w ++ [Callback sid (error "Performance already started.")].
Proof.
  intros Hr Hs. unfold on_join_room. munfold. rewrite Hr.
  rewrite decide_True by done. by eexists.
Qed.

(** Outside a running performance, in the lobby as after the end, a
    join with a non-blank name appends the player and touches nothing
    else of the room. *)
Lemma join_room_accepted sid code name w room :
  rooms w !! code = Some room → state room ≠ performance → trim name ≠ "" →
  ∃ w', on_join_room sid code (Some name) w = Ok tt w'
    ∧ rooms w' =
        <[code := set_players (players room ++ [mkPlayer sid (trim name)]) room]> (rooms w).
Proof.
  intros Hr Hs Hname. apply String.eqb_neq in Hname.
  unfold on_join_room. munfold. rewrite Hr.
  rewrite decide_False by done. simpl. rewrite Hname.
  mrun. eexists. split; [reflexivity|done].
Qed.

Lemma join_room_error_changes_nothing sid code name w w' msg :
  on_join_room sid code name w = Ok tt w' →
  last (emitted w') = Some (Callback sid (error msg)) →
  rooms w' = rooms w ∧ sockets w' = sockets w.
Proof.
  unfold on_join_room. mrun; intros; simplify_eq; try done.
  match goal with H : last _ = Some _ |- _ => simpl in H; by rewrite last_snoc in H end.
Qed.

(** *** Casting *)








(** *** Booting *)

Lemma find_player ps playerName :
  (∃ p, p ∈ ps ∧ p_name p = playerName) →
  ∃ target, List.find (λ p, bool_decide (p_name p = playerName)) ps = Some target.
Proof.
  intros (p & Hin & Hp).
  destruct (List.find _ ps) as [target|] eqn:E; [by eexists|].
  apply list_elem_of_In in Hin. pose proof (find_none _ _ E p Hin) as Hnone.
  simpl in Hnone. by rewrite bool_decide_eq_false in Hnone.
Qed.

(** What C2 asks for, when the booted player's name is not the host's:
    the active line goes to the host, the player's other characters
    are released, everything else stays, and the player leaves the
    list. *)
Lemma boot_player_hands_line_to_host w sid d code room character text playerName :
  reachable w →
  sockets w !! sid = Some d → d_code d = Some code → d_role d = Some host →
  rooms w !! code = Some room → state room = performance →
  beats (script room) !! currentBeat room = Some (dialogue character text) →
  assignments room !! character = Some (str playerName) →
  (∃ p, p ∈ players room ∧ p_name p = playerName) →
  playerName ≠ hostName room →
  ∃ w' room', on_boot_player sid playerName w = Ok tt w'
    ∧ rooms w' !! code = Some room'
    ∧ assignments room' !! character = Some (str (hostName room))
    ∧ (∀ ch, ch ≠ character → assignments room !! ch = Some (str playerName) →
         assignments room' !! ch = Some null)
    ∧ (∀ ch v, ch ≠ character → assignments room !! ch = Some v → v ≠ str playerName →
         assignments room' !! ch = Some v)
    ∧ players room' = filter (λ p, p_name p ≠ playerName) (players room)
    ∧ state room' = performance ∧ currentBeat room' = currentBeat room.
Proof.
  intros Hw Hd Hc Hh Hr Hs Hb Ha Hp Hne.
  destruct (reachable_socket _ _ _ _ Hw Hd Hc) as (Hcode & _).
  destruct (find_player _ _ Hp) as (target & Hfind).
  set (a2 := release (str playerName)
               (<[character := str (hostName room)]> (assignments room))).
  set (room' := set_players (filter (λ p, p_name p ≠ playerName) (players room))
                  (set_assignments a2 room)).
  assert (∃ w', on_boot_player sid playerName w = Ok tt w'
            ∧ rooms w' = <[code := room']> (rooms w)) as (w' & E & Hrooms).
  { unfold on_boot_player. enter Hd Hc Hcode Hr.
    destruct (decide (d_role d ≠ Some host)) as [?|_]; [done|]. rewrite Hfind.
    destruct (decide (state room = performance)) as [_|?]; [|done]. rewrite Hb.
    destruct (decide (prop (assignments room) character = str playerName)) as [_|Hn];
      [|by destruct Hn; apply prop_str].
    simpl. mrun; try congruence; by eexists. }
  exists w', room'. rewrite Hrooms, lookup_insert_eq. split_and!; try done.
  - unfold room', a2, release. simpl. rewrite lookup_fmap, lookup_insert_eq. simpl.
    rewrite decide_False; [done|]. by intros [= ?].
  - intros ch Hch Hown. unfold room', a2, release. simpl.
    rewrite lookup_fmap, lookup_insert_ne, Hown by done. simpl.
    by rewrite decide_True.
  - intros ch v Hch Hown Hv. unfold room', a2, release. simpl.
    rewrite lookup_fmap, lookup_insert_ne, Hown by done. simpl.
    by rewrite decide_False.
Qed.

(** *** Speaking a line *)

(** C5: during performance, on a dialogue beat, beat-done advances
    [currentBeat] by one exactly when the caller's name is the
    character's assignee or the caller is the host; from any other
    caller, and on a direction beat from every caller, it leaves the
    whole server state (so [currentBeat] and [state]) unchanged. *)
Theorem beat_done_gate w sid d code room :
  reachable w →
  sockets w !! sid = Some d → d_code d = Some code →
  rooms w !! code = Some room → state room = performance →
  ∃ n, d_name d = Some n
    ∧ (∀ character text,
         beats (script room) !! currentBeat room = Some (dialogue character text) →
         (assignments room !! character = Some (str n) ∨ d_role d = Some host →
            ∃ w' room', on_beat_done sid w = Ok tt w'
              ∧ rooms w' !! code = Some room'
              ∧ currentBeat room' = S (currentBeat room))
         ∧ (assignments room !! character ≠ Some (str n) → d_role d ≠ Some host →
            on_beat_done sid w = Ok tt w))
    ∧ (∀ text,
         beats (script room) !! currentBeat room = Some (direction text) →
         on_beat_done sid w = Ok tt w).
Proof.
  intros Hw Hd Hc Hr Hs.
  destruct (reachable_socket _ _ _ _ Hw Hd Hc) as (Hne & _ & n & Hn & _).
  exists n. split; [done|]. split.
  - intros character text Hb.
    assert (on_beat_done sid w =
            if decide (assignments room !! character = Some (str n) ∨ d_role d = Some host)
            then advanceBeat code w else Ok tt w) as ->.
    { unfold on_beat_done. enter Hd Hc Hne Hr.
      rewrite decide_False by (by intros []). rewrite Hb, Hn. simpl.
      destruct (decide (assignments room !! character = Some (str n) ∨ _)) as [Hy|Hy].
      - rewrite decide_False; [done|]. intros [Hx1 Hx2]. destruct Hy as [Hy|Hy]; [|done].
        apply Hx1. symmetry. by apply prop_str.
      - rewrite decide_True; [done|]. split.
        + intros Hx. apply Hy. left. by apply prop_str.
        + intros Hx. apply Hy. by right. }
    split.
    + intros Hy. rewrite decide_True by done.
      destruct (advanceBeat_advances _ _ _ Hr Hs) as (w' & -> & Hrooms & _).
      exists w', (advanced room). rewrite Hrooms, lookup_insert_eq.
      by rewrite advanced_currentBeat.
    + intros Hy1 Hy2. rewrite decide_False; [done|]. by intros [].
  - intros text Hb. unfold on_beat_done. enter Hd Hc Hne Hr.
    rewrite decide_False by (by intros []). by rewrite Hb.
Qed.

(** C10: during performance, when the current beat is a dialogue beat
    whose character is unassigned (owner [null]), a beat-done from the
    host advances [currentBeat] by one, while a beat-done from any
    socket that is not the host leaves the server as it is. *)
Theorem unowned_line_host_only w sid d code room character text :
  reachable w →
  sockets w !! sid = Some d → d_code d = Some code →
  rooms w !! code = Some room → state room = performance →
  beats (script room) !! currentBeat room = Some (dialogue character text) →
  assignments room !! character = Some null →
  (d_role d = Some host →
     ∃ w' room', on_beat_done sid w = Ok tt w'
       ∧ rooms w' !! code = Some room'
       ∧ currentBeat room' = S (currentBeat room))
  ∧ (d_role d ≠ Some host → on_beat_done sid w = Ok tt w).
Proof.
  intros Hw Hd Hc Hr Hs Hb Ha.
  destruct (reachable_socket _ _ _ _ Hw Hd Hc) as (Hne & _ & n & Hn & _).
  assert (on_beat_done sid w =
          if decide (d_role d = Some host) then advanceBeat code w else Ok tt w) as ->.
  { unfold on_beat_done. munfold. rewrite Hd. simpl. rewrite Hc.
    rewrite (room_of_lookup _ _ _ Hne Hr). rewrite decide_False by (by intros []).
    rewrite Hb. unfold prop. rewrite Ha, Hn. simpl.
    destruct (decide (d_role d = Some host)) as [Hh|Hh].
    - rewrite decide_False; [done|]. by intros [_ ?].
    - rewrite decide_True; [done|]. done. }
  split; intros Hrole.
  - rewrite decide_True by done.
    destruct (advanceBeat_advances _ _ _ Hr Hs) as (w' & -> & Hrooms & _).
    exists w', (advanced room). rewrite Hrooms, lookup_insert_eq.
    by rewrite advanced_currentBeat.
  - by rewrite decide_False.
Qed.

(** *** Beat progression *)

Lemma timer_callback_stale t v :
  (rooms v !! t_code t = None
   ∨ ∃ r, rooms v !! t_code t = Some r
       ∧ (currentBeat r ≠ t_beatIndex t ∨ state r ≠ performance)) →
  timer_callback t v = Ok tt v.
Proof.
  intros Hstale. unfold timer_callback. munfold. destruct Hstale as [->|(r & -> & Hg)]; [done|].
  rewrite decide_False; [done|]. intros [? ?]. by destruct Hg.
Qed.

Lemma timer_callback_live t v r :
  rooms v !! t_code t = Some r → currentBeat r = t_beatIndex t → state r = performance →
  ∃ v', timer_callback t v = Ok tt v'
    ∧ rooms v' = <[t_code t := advanced r]> (rooms v)
    ∧ timer_callback t v' = Ok tt v'.
Proof.
  intros Hr Hi Hs. destruct (advanceBeat_advances _ _ _ Hr Hs) as (v' & E & Hrooms & _).
  exists v'. split_and!; [|done|].
  - unfold timer_callback. munfold. rewrite Hr. by rewrite decide_True.
  - apply timer_callback_stale. right. exists (advanced r).
    rewrite Hrooms, lookup_insert_eq. split; [done|]. left.
    rewrite advanced_currentBeat. lia.
Qed.


(** C6 (amended): when [advanceBeat] takes [currentBeat] past the last
    beat, the room becomes ended and that call emits the one
    performance-ended notification and no beat; a further [advanceBeat]
    does nothing.  While a room is ended, every input other than
    start-performance leaves it ended on the same beat index (or
    removes it) and emits no beat notification for it. *)
Theorem advance_past_last_beat w code room :
  rooms w !! code = Some room → state room = performance →
  (length (beats (script room)) ≤ S (currentBeat room))%nat →
  ∃ w1,
    advanceBeat code w = Ok tt w1
    ∧ rooms w1 =
        <[code := set_state ended (set_currentBeat (S (currentBeat room)) room)]> (rooms w)
    ∧ emitted w1 = emitted w ++ [ToRoom code performance_ended]
    ∧ advanceBeat code w1 = Ok tt w1
    ∧ (∀ v rv fuel i v',
         rooms v !! code = Some rv → state rv = ended →
         (∀ sid, i ≠ StartPerformance sid) →
         handle fuel i v = Ok tt v' →
         (rooms v' !! code = None
          ∨ ∃ rv', rooms v' !! code = Some rv' ∧ state rv' = ended
                 ∧ currentBeat rv' = currentBeat rv)
         ∧ ∃ out, emitted v' = emitted v ++ out
                ∧ ∀ e, e ∈ out → ¬ is_beat_for code e).
Proof.
  intros Hr Hs Hlast.
  assert (∃ w1, advanceBeat code w = Ok tt w1
            ∧ rooms w1 =
                <[code := set_state ended (set_currentBeat (S (currentBeat room)) room)]>
                  (rooms w)
            ∧ emitted w1 = emitted w ++ [ToRoom code performance_ended])
    as (w1 & E & Hrooms & Hlog).
  { unfold advanceBeat. munfold. rewrite Hr.
    destruct (decide (state room ≠ performance)) as [?|_]; [done|]. simpl.
    destruct (decide (length (beats (script room)) ≤ S (currentBeat room))%nat)
      as [_|?]; [|done].
    eexists. split; [reflexivity|]. simpl. by rewrite insert_insert_eq. }
  exists w1. split_and!; try done.
  - unfold advanceBeat. munfold. by rewrite Hrooms, lookup_insert_eq.
  - intros v rv fuel i v' Hv Hvs Hi Hstep.
    destruct (handle_ended _ _ _ _ _ _ _ _ Hv Hvs Hi Hstep) as [Hst (out & Hout & Hq)].
    split; [done|]. exists out. split; [done|]. by apply Forall_forall.
Qed.

(** C9: in every state the server can reach, a room in performance has
    [currentBeat] strictly below the number of beats of its script, and
    so it is after every further input (a request of any socket, a
    timer, a disconnect) and after [advanceBeat] itself. *)
Theorem currentBeat_in_range w :
  reachable w →
  (∀ code room, rooms w !! code = Some room → state room = performance →
     (currentBeat room < length (beats (script room)))%nat)
  ∧ (∀ fuel i w', handle fuel i w = Ok tt w' →
       ∀ code room, rooms w' !! code = Some room → state room = performance →
         (currentBeat room < length (beats (script room)))%nat)
  ∧ (∀ code0 w', advanceBeat code0 w = Ok tt w' →
       ∀ code room, rooms w' !! code = Some room → state room = performance →
         (currentBeat room < length (beats (script room)))%nat).
Proof.
  intros Hw. pose proof (reachable_bound _ _ _ Hw) as Hb. split_and!.
  - intros code room Hr. by apply (Hb code room Hr).
  - intros fuel i w' Hstep code room Hr.
    by apply (handle_bound _ _ _ _ _ _ Hb Hstep code room Hr).
  - intros code0 w' Hstep code room Hr.
    by apply (advanceBeat_bound _ _ _ Hb Hstep code room Hr).
Qed.

End Claims.

(** ** The line-count pass *)

Lemma zero_counts_lookup cs name :
  zero_counts cs !! name = if decide (name ∈ c_name <$> cs) then Some 0 else None.
Proof.
  unfold zero_counts. induction cs as [|c cs IH] using rev_ind.
  - simpl. by rewrite lookup_empty.
  - rewrite foldl_snoc, fmap_snoc, lookup_insert, IH.
    destruct (decide (c_name c = name)) as [<-|Hc].
    + rewrite decide_True; [done|]. apply elem_of_app. right. by apply list_elem_of_singleton.
    + destruct (decide (name ∈ c_name <$> cs)) as [Hin|Hin].
      * rewrite decide_True; [done|]. apply elem_of_app. by left.
      * rewrite decide_False; [done|]. rewrite elem_of_app. intros [?|Hx]; [done|].
        apply list_elem_of_singleton in Hx. done.
Qed.

Lemma lines_of_cons name b bs :
  lines_of name (b :: bs) = ((if is_line_of name b then 1 else 0) + lines_of name bs)%nat.
Proof.
  unfold lines_of. rewrite filter_cons.
  destruct (is_line_of name b); by case_decide.
Qed.

Lemma count_beat_lookup counts b name :
  count_beat counts b !! name
  = (λ n, (n + if is_line_of name b then 1 else 0)%nat) <$> counts !! name.
Proof.
  destruct b as [ch text|text]; simpl.
  - destruct (counts !! ch) as [n|] eqn:E.
    + destruct (decide (ch = name)) as [<-|Hne].
      * rewrite lookup_insert_eq, E, bool_decide_eq_true_2 by done. simpl. f_equal. lia.
      * rewrite lookup_insert_ne, bool_decide_eq_false_2 by done.
        destruct (counts !! name); simpl; f_equal. lia.
    + destruct (decide (ch = name)) as [<-|Hne].
      * by rewrite E.
      * rewrite bool_decide_eq_false_2 by done.
        destruct (counts !! name); simpl; f_equal. lia.
  - destruct (counts !! name); simpl; f_equal. lia.
Qed.

Lemma foldl_count_beat_lookup bs counts name :
  foldl count_beat counts bs !! name = (λ n, (n + lines_of name bs)%nat) <$> counts !! name.
Proof.
  revert counts. induction bs as [|b bs IH]; intros counts; simpl.
  - destruct (counts !! name); simpl; f_equal. unfold lines_of. simpl. lia.
  - rewrite IH, count_beat_lookup, lines_of_cons.
    destruct (counts !! name); simpl; f_equal. lia.
Qed.

(** [counts[c.name]] is never [undefined] for a character of the script. *)
Lemma line_counts_lookup s name :
  line_counts s !! name
  = if decide (name ∈ c_name <$> characters s) then Some (lines_of name (beats s)) else None.
Proof.
  unfold line_counts. rewrite foldl_count_beat_lookup, zero_counts_lookup.
  by case_decide.
Qed.

Lemma prepare_lineCount s c :
  c ∈ characters (prepare s) →
  line_counts s !! c_name c = Some (lineCount c)
  ∧ lineCount c = lines_of (c_name c) (beats s).
Proof.
  unfold prepare. simpl. intros Hc. apply list_elem_of_fmap in Hc as (c0 & -> & Hc0). simpl.
  rewrite line_counts_lookup, decide_True; [done|].
  apply list_elem_of_fmap. by exists c0.
Qed.

(** X1: the pass keeps the title, the beats and the names of the
    characters, and gives every character, as [lineCount], the value
    its name has in [counts]: the number of dialogue beats that carry
    that name. *)
Theorem prepare_counts_lines s :
  title (prepare s) = title s
  ∧ beats (prepare s) = beats s
  ∧ c_name <$> characters (prepare s) = c_name <$> characters s
  ∧ Forall (λ c, line_counts s !! c_name c = Some (lineCount c)
                 ∧ lineCount c = lines_of (c_name c) (beats s))
      (characters (prepare s)).
Proof.
  split_and!; [done|done|..].
  - unfold prepare. simpl. rewrite <- list_fmap_compose. by apply list_fmap_ext.
  - apply Forall_forall. intros c Hc. by apply prepare_lineCount.
Qed.

Lemma sum_list_add {A} (f g : A → nat) l :
  sum_list ((λ x, f x + g x)%nat <$> l) = (sum_list (f <$> l) + sum_list (g <$> l))%nat.
Proof. induction l as [|x l IH]; csimpl; [done|]. rewrite IH. lia. Qed.

Lemma sum_list_indicator (ch : string) ks :
  NoDup ks →
  sum_list ((λ k, if bool_decide (ch = k) then 1 else 0)%nat <$> ks)
  = if decide (ch ∈ ks) then 1%nat else 0%nat.
Proof.
  induction 1 as [|k ks Hk Hnd IH].
  - rewrite decide_False; [done|]. by intros ?%elem_of_nil.
  - rewrite fmap_cons. cbn [sum_list]. rewrite IH. destruct (decide (ch = k)) as [<-|Hne].
    + rewrite bool_decide_eq_true_2 by done.
      rewrite (decide_False (P := ch ∈ ks)) by done.
      rewrite decide_True; [done|]. by left.
    + rewrite bool_decide_eq_false_2 by done. simpl.
      destruct (decide (ch ∈ ks)) as [Hin|Hin].
      * rewrite decide_True; [done|]. by right.
      * rewrite decide_False; [done|]. intros [?|?]%elem_of_cons; done.
Qed.

Lemma lines_of_sum ks bs :
  NoDup ks →
  (sum_list ((λ k, lines_of k bs) <$> ks) ≤ length (filter is_dialogue bs))%nat
  ∧ ((∀ ch text, dialogue ch text ∈ bs → ch ∈ ks) →
     sum_list ((λ k, lines_of k bs) <$> ks) = length (filter is_dialogue bs)).
Proof.
  intros Hnd. induction bs as [|b bs [IHle IHeq]].
  - assert (sum_list ((λ k, lines_of k []) <$> ks) = 0%nat) as ->; [|by simpl].
    induction ks as [|k ks IH]; csimpl; [done|]. apply NoDup_cons in Hnd as [_ Hnd].
    by rewrite IH.
  - assert (sum_list ((λ k, lines_of k (b :: bs)) <$> ks)
            = (sum_list ((λ k, if is_line_of k b then 1 else 0)%nat <$> ks)
               + sum_list ((λ k, lines_of k bs) <$> ks))%nat) as ->.
    { rewrite <- sum_list_add. f_equal. apply list_fmap_ext. intros _ k _.
      apply lines_of_cons. }
    rewrite filter_cons. destruct b as [ch text|text]; simpl.
    + rewrite (sum_list_indicator ch ks Hnd). split.
      * case_decide; lia.
      * intros Hall. rewrite decide_True by (apply (Hall ch text); by left).
        rewrite IHeq; [done|]. intros ch' text' Hin. apply (Hall ch' text'). by right.
    + assert (sum_list ((λ _, 0%nat) <$> ks) = 0%nat) as ->.
      { clear. induction ks; csimpl; [done|]. by rewrite IHks. }
      split; [done|].
      intros Hall. apply IHeq. intros ch' text' Hin. apply (Hall ch' text'). by right.
Qed.

Lemma prepare_lineCounts s :
  lineCount <$> characters (prepare s)
  = (λ k, lines_of k (beats s)) <$> (c_name <$> characters s).
Proof.
  unfold prepare. simpl. rewrite <- !list_fmap_compose. apply list_fmap_ext.
  intros i c Hc. simpl. rewrite line_counts_lookup, decide_True; [done|].
  apply list_elem_of_fmap. exists c. split; [done|]. by eapply list_elem_of_lookup_2.
Qed.

(** X2: when no two characters of a script share a name, the line
    counts add up to at most the number of dialogue beats, and to
    exactly that number when every dialogue beat names a character of
    the script. *)
Theorem prepare_lineCount_sum s :
  NoDup (c_name <$> characters s) →
  (sum_list (lineCount <$> characters (prepare s)) ≤ length (filter is_dialogue (beats s)))%nat
  ∧ ((∀ ch text, dialogue ch text ∈ beats s → ch ∈ c_name <$> characters s) →
     sum_list (lineCount <$> characters (prepare s)) = length (filter is_dialogue (beats s))).
Proof. intros Hnd. rewrite prepare_lineCounts. by apply lines_of_sum. Qed.

(** ** The host's casting commands and the disconnect handler *)

Section Handlers.

Variable preparedScripts : list Script.
Variable rnd : nat → nat.

Local Abbreviation reachable := (reachable preparedScripts rnd).
Local Abbreviation handle := (handle preparedScripts rnd).
Local Abbreviation run := (run preparedScripts rnd).

(** *** force-assign *)

(** [toPlayer !== null && !validNames.includes(toPlayer)] is false
    exactly on the accepted targets. *)
Lemma force_assign_target room v :
  bool_decide (v ≠ null)
  && negb (bool_decide (v = str (hostName room))
           || existsb (λ p, bool_decide (str (p_name p) = v)) (players room)) = false
  ↔ target_ok room v.
Proof.
  unfold target_ok, member_name. split.
  - intros H. destruct (decide (v = null)) as [->|Hv]; [by left|].
    rewrite bool_decide_eq_true_2 in H by done. simpl in H.
    apply negb_false_iff, orb_true_iff in H as [H|H].
    + apply bool_decide_eq_true in H as ->. right. eexists. split; [done|]. by left.
    + apply existsb_exists in H as (p & Hin & Hp). apply bool_decide_eq_true in Hp as <-.
      right. eexists. split; [done|]. right. exists p. split; [by apply list_elem_of_In|done].
  - intros [->|(n & -> & [->|(p & Hin & <-)])]; [done|..]; simpl.
    + by rewrite bool_decide_eq_true_2.
    + apply negb_false_iff, orb_true_iff. right. apply existsb_exists. exists p.
      split; [by apply list_elem_of_In|]. by apply bool_decide_eq_true.
Qed.

(** An accepted target is stored as it is: [toPlayer || null]. *)
Lemma target_ok_js_or room v : cast_ok room → target_ok room v → js_or v null = v.
Proof.
  intros (Hh & Hp & _) [->|(n & -> & Hn)]; [done|].
  assert (n ≠ "") as Hne.
  { destruct Hn as [->|(p & Hin & <-)]; [done|].
    rewrite Forall_forall in Hp. by apply Hp. }
  unfold js_or. simpl. by destruct (String.eqb_spec n "").
Qed.

Lemma bounded_beat room :
  bounded room → state room = performance →
  ∃ beat, beats (script room) !! currentBeat room = Some beat.
Proof.
  intros Hb Hs. destruct (beats (script room) !! currentBeat room) eqn:E; [by eexists|].
  apply lookup_ge_None in E. specialize (Hb Hs). lia.
Qed.



(** X4: during a performance an accepted force-assign is followed by
    the two casting broadcasts and by the current beat once more; when
    that beat is a line of the re-cast character its active player is
    the new owner, and when it is a direction a further auto-advance
    timer is armed for it. *)
Theorem force_assign_resends_beat w sid d code room character toPlayer beat :
  reachable w → sockets w !! sid = Some d → d_code d = Some code →
  d_role d = Some host → rooms w !! code = Some room →
  is_Some (assignments room !! character) → target_ok room toPlayer →
  state room = performance → beats (script room) !! currentBeat room = Some beat →
  let a' := <[character := toPlayer]> (assignments room) in
  let activePlayer :=
    match beat with
    | dialogue ch _ =>
        if decide (ch = character) then toPlayer
        else js_or (prop (assignments room) ch) null
    | direction _ => null
    end in
  ∃ w', on_force_assign sid character toPlayer w = Ok tt w'
    ∧ emitted w' =
        emitted w ++
        [ToRoom code (assignments_ev a');
         ToRoom code (casting_complete (allCharactersAssigned (set_assignments a' room)));
         ToRoom code (beat_ev (currentBeat room) (length (beats (script room))) beat
                        activePlayer)]
    ∧ timers w' =
        timers w ++
        (if is_dialogue beat then [] else [mkTimer code (currentBeat room) (now w + delay)]).
Proof.
  intros Hw Hd Hc Hh Hr Hch Ht Hs Hbeat a' activePlayer.
  destruct (reachable_socket _ _ _ _ _ _ Hw Hd Hc) as (Hcode & _).
  destruct (reachable_room _ _ _ _ _ Hw Hr) as (_ & Hcast & Hbound).
  unfold on_force_assign. enter Hd Hc Hcode Hr.
  destruct (decide (d_role d ≠ Some host)) as [?|_]; [done|].
  destruct (decide (assignments room !! character = None)) as [E|_];
    [rewrite E in Hch; by destruct Hch|].
  rewrite (proj2 (force_assign_target room toPlayer) Ht).
  rewrite (target_ok_js_or room toPlayer Hcast Ht).
  assert (match beat with
          | dialogue ch _ => js_or (prop a' ch) null
          | direction _ => null
          end = activePlayer) as Hactive.
  { unfold activePlayer, a', prop. destruct beat as [ch text|text]; [|done].
    destruct (decide (ch = character)) as [->|Hne].
    - rewrite lookup_insert_eq. by apply (target_ok_js_or room).
    - by rewrite lookup_insert_ne. }
  destruct beat; mrun; try congruence; eexists; split_and!; try reflexivity; simpl;
    rewrite <- ?app_assoc; try done; try (by rewrite app_nil_r).
  all: fold a'; by rewrite Hactive.
Qed.

(** *** disconnect *)


(** X6: when a player's socket disconnects, its entry leaves the
    player list (by socket id), every character owned by its name
    becomes unassigned, the room keeps its state and beat, and the room
    hears the new player list and casting but no beat. *)
Theorem player_disconnect_releases w fuel sid d code room n :
  reachable w → sockets w !! sid = Some d → d_code d = Some code →
  d_role d = Some player → d_name d = Some n → rooms w !! code = Some room →
  let room' := set_assignments (release (str n) (assignments room))
                 (set_players (filter (λ p, p_id p ≠ sid) (players room)) room) in
  ∃ w', handle fuel (Disconnect sid) w = Ok tt w'
    ∧ rooms w' = <[code := room']> (rooms w)
    ∧ sockets w' = delete sid (sockets w)
    ∧ timers w' = timers w
    ∧ emitted w' =
        emitted w ++
        [ToRoom code (player_list ((hostName room, true)
                                   :: map (λ p, (p_name p, false)) (players room')));
         ToRoom code (assignments_ev (assignments room'));
         ToRoom code (casting_complete (allCharactersAssigned room'))]
    ∧ (∀ ch, assignments room !! ch = Some (str n) → assignments room' !! ch = Some null)
    ∧ (∀ ch v, assignments room !! ch = Some v → v ≠ str n →
         assignments room' !! ch = Some v)
    ∧ (∀ p, p ∈ players room' ↔ p ∈ players room ∧ p_id p ≠ sid).
Proof.
  intros Hw Hd Hc Hh Hn Hr room'.
  destruct (reachable_socket _ _ _ _ _ _ Hw Hd Hc) as (Hcode & _).
  eexists. split.
  - simpl. unfold from_socket. munfold. rewrite Hd.
    rewrite decide_True by (by eexists). unfold on_disconnect. munfold.
    rewrite Hd. simpl. rewrite Hc, Hn.
    erewrite room_of_lookup by (done || exact Hr).
    rewrite decide_False by (by rewrite Hh).
    unfold broadcastPlayerList, broadcastAssignments. munfold. simpl.
    repeat (rewrite lookup_insert_eq; simpl). reflexivity.
  - simpl. split_and!; try done.
    + by rewrite <- !app_assoc.
    + intros ch Hch. unfold release. rewrite lookup_fmap, Hch. simpl.
      by rewrite decide_True.
    + intros ch v Hch Hv. unfold release. rewrite lookup_fmap, Hch. simpl.
      by rewrite decide_False.
    + intros p. rewrite list_elem_of_filter. tauto.
Qed.

(** *** boot-player *)

(** X7: boot-player from anyone but the host, or for a name no player
    carries, does nothing.  Otherwise every player of that name leaves
    the list and no character is owned by that name afterwards; the
    notice goes to the first such player only, and only while its
    socket is connected; the room keeps its state and beat, and no
    socket loses its binding to the room. *)
Theorem boot_player_effect w sid d code room playerName :
  reachable w → sockets w !! sid = Some d → d_code d = Some code →
  rooms w !! code = Some room →
  (d_role d ≠ Some host ∨ (∀ p, p ∈ players room → p_name p ≠ playerName) →
   on_boot_player sid playerName w = Ok tt w)
  ∧ (d_role d = Some host →
     ∀ target,
       List.find (λ p, bool_decide (p_name p = playerName)) (players room) = Some target →
       ∃ w' room' out,
         on_boot_player sid playerName w = Ok tt w'
         ∧ emitted w' =
             emitted w ++
             (if decide (is_Some (sockets w !! p_id target))
              then [ToSocket (p_id target) (kicked "You were removed by the host.")]
              else []) ++ out
         ∧ Forall (λ e, is_kicked e = false) out
         ∧ rooms w' = <[code := room']> (rooms w)
         ∧ sockets w' = sockets w
         ∧ players room' = filter (λ p, p_name p ≠ playerName) (players room)
         ∧ (∀ ch, assignments room' !! ch ≠ Some (str playerName))
         ∧ (state room ≠ performance →
            assignments room' = release (str playerName) (assignments room))
         ∧ state room' = state room ∧ currentBeat room' = currentBeat room).
Proof.
  intros Hw Hd Hc Hr.
  destruct (reachable_socket _ _ _ _ _ _ Hw Hd Hc) as (Hcode & _).
  destruct (reachable_room _ _ _ _ _ Hw Hr) as (_ & Hcast & Hbound).
  split.
  - intros Hno. unfold on_boot_player. enter Hd Hc Hcode Hr.
    destruct (decide (d_role d ≠ Some host)) as [?|Hh]; [done|].
    destruct Hno as [?|Hno]; [done|].
    destruct (List.find _ (players room)) as [target|] eqn:E; [|done].
    apply find_some in E as [Hin E]. apply bool_decide_eq_true in E.
    apply list_elem_of_In in Hin. by destruct (Hno target Hin).
  - intros Hh target Hfind.
    assert (∀ a ch, release (str playerName) a !! ch ≠ Some (str playerName)) as Hrel.
    { intros a ch. unfold release. rewrite lookup_fmap.
      destruct (a !! ch) as [v|]; simpl; [|done]. case_decide; congruence. }
    unfold on_boot_player. enter Hd Hc Hcode Hr.
    destruct (decide (d_role d ≠ Some host)) as [?|_]; [done|]. rewrite Hfind.
    destruct (decide (state room = performance)) as [Hs|Hs].
    + destruct (bounded_beat room Hbound Hs) as (beat & Hbeat). rewrite Hbeat.
      destruct beat; mrun; try congruence; eexists _, _, _;
        (split; [reflexivity|]); simpl; rewrite <- ?app_assoc;
        (split; [reflexivity|]); rewrite ?insert_insert_eq;
        split_and!; try done; try apply Hrel; repeat constructor.
    + mrun; try congruence; eexists _, _, _;
        (split; [reflexivity|]); simpl; rewrite <- ?app_assoc;
        (split; [reflexivity|]); rewrite ?insert_insert_eq;
        split_and!; try done; try apply Hrel; repeat constructor.
Qed.

(** X8: the boot leaves [socket.data] of the booted player as it was,
    and claim-character asks for nothing but the room behind it: in
    the lobby the booted player's socket can claim a free part, or one
    it held, and then owns it without being in the player list. *)
Theorem booted_player_can_still_claim w sid d code room playerName target dt character :
  reachable w → sockets w !! sid = Some d → d_code d = Some code →
  d_role d = Some host → rooms w !! code = Some room → state room = lobby →
  List.find (λ p, bool_decide (p_name p = playerName)) (players room) = Some target →
  sockets w !! p_id target = Some dt → d_code dt = Some code →
  d_name dt = Some playerName →
  assignments room !! character = Some null
  ∨ assignments room !! character = Some (str playerName) →
  ∃ w1 w2 room2,
    on_boot_player sid playerName w = Ok tt w1
    ∧ on_claim_character (p_id target) character w1 = Ok tt w2
    ∧ rooms w2 !! code = Some room2
    ∧ assignments room2 !! character = Some (str playerName)
    ∧ (∀ p, p ∈ players room2 → p_name p ≠ playerName).
Proof.
  intros Hw Hd Hc Hh Hr Hs Hfind Hdt Hct Hnt Hch.
  destruct (reachable_socket _ _ _ _ _ _ Hw Hd Hc) as (Hcode & _).
  destruct (reachable_socket _ _ _ _ _ _ Hw Hdt Hct) as (_ & _ & n & Hn & Hne).
  rewrite Hnt in Hn. injection Hn as <-.
  set (room1 := set_players (filter (λ p, p_name p ≠ playerName) (players room))
                  (set_assignments (release (str playerName) (assignments room)) room)).
  assert (∃ w1, on_boot_player sid playerName w = Ok tt w1
            ∧ rooms w1 = <[code := room1]> (rooms w)
            ∧ sockets w1 = sockets w) as (w1 & E1 & Hrooms1 & Hsockets1).
  { unfold on_boot_player. enter Hd Hc Hcode Hr.
    destruct (decide (d_role d ≠ Some host)) as [?|_]; [done|]. rewrite Hfind.
    destruct (decide (state room = performance)) as [?|_]; [congruence|].
    mrun; try congruence; by eexists. }
  assert (assignments room1 !! character = Some null) as Hfree.
  { unfold room1, release. simpl. rewrite lookup_fmap.
    destruct Hch as [-> | ->]; simpl; [done|]. by rewrite decide_True. }
  set (room2 := set_assignments (<[character := str playerName]> (assignments room1)) room1).
  assert (∃ w2, on_claim_character (p_id target) character w1 = Ok tt w2
            ∧ rooms w2 = <[code := room2]> (rooms w1)) as (w2 & E2 & Hrooms2).
  { assert (rooms w1 !! code = Some room1) as Hr1 by (by rewrite Hrooms1, lookup_insert_eq).
    rewrite <- Hsockets1 in Hdt.
    unfold on_claim_character. enter Hdt Hct Hcode Hr1.
    destruct (decide (state room1 ≠ lobby)) as [?|_]; [done|].
    destruct (decide (assignments room1 !! character = None)) as [?|_]; [congruence|].
    rewrite Hnt. unfold prop. rewrite Hfree. simpl.
    mrun; try congruence; eexists; split; try reflexivity; simpl;
      by rewrite ?insert_insert_eq. }
  exists w1, w2, room2. split_and!; [done|done|..].
  - by rewrite Hrooms2, lookup_insert_eq.
  - unfold room2. simpl. by rewrite lookup_insert_eq.
  - intros p Hp. unfold room2, room1 in Hp. simpl in Hp.
    by apply list_elem_of_filter in Hp as [? _].
Qed.

End Handlers.

(** ** One step of the server, seen from a room *)

(** Resolves the lookups of a room in an updated registry. *)
Ltac armed_rooms :=
  repeat match goal with
    | H : <[?c := _]> _ !! ?code = Some _ |- _ =>
        let E := fresh "E" in
        destruct (decide (c = code)) as [E|?];
        [rewrite ?E in *; rewrite lookup_insert_eq in H
        |rewrite lookup_insert_ne in H by done]
    | H : delete ?c _ !! ?code = Some _ |- _ => apply lookup_delete_Some in H as [? H]
    end.

Section Steps.

Variable preparedScripts : list Script.
Variable rnd : nat → nat.

Local Abbreviation reachable := (reachable preparedScripts rnd).
Local Abbreviation handle := (handle preparedScripts rnd).
Local Abbreviation run := (run preparedScripts rnd).

(** What create-room leaves behind when it returns. *)
Lemma on_create_room_inv fuel sid name scriptIndex w w' :
  on_create_room preparedScripts rnd fuel sid name scriptIndex w = Ok tt w' →
  (trim (default "" name) = ""
   ∧ w' = mkWorld (rooms w) (sockets w) (timers w) (now w)
            (emitted w ++ [Callback sid (error "Please enter your name.")]) (drawn w))
  ∨ (∃ code script,
       trim (default "" name) ≠ "" ∧ code_ok code ∧ rooms w !! code = None
       ∧ script ∈ preparedScripts
       ∧ rooms w' =
           <[code := mkRoom sid (trim (default "" name)) [] script
                       (unassigned (characters script)) lobby 0]> (rooms w)
       ∧ sockets w' =
           <[sid := mkData (Some code) (Some host) (Some (trim (default "" name)))]>
             (sockets w)
       ∧ timers w' = timers w ∧ now w' = now w
       ∧ emitted w' = emitted w ++ [Callback sid (created code script)]).
Proof.
  unfold on_create_room. munfold.
  destruct (String.eqb_spec (trim (default "" name)) "") as [Hname|Hname].
  - intros [= <-]. by left.
  - destruct (makeUniqueCode rnd fuel w) as [c w0| |] eqn:E; try done.
    pose proof (makeUniqueCode_ok _ _ _ _ _ E) as Hc.
    apply makeUniqueCode_frame in E. destruct E as (Hfree & E1 & E2 & E3 & E4 & E5).
    destruct (match script_at preparedScripts scriptIndex with
              | Some s => Some s
              | None => preparedScripts !! 0
              end) as [script|] eqn:Es; [|done].
    simpl. intros [= <-]. right. exists c, script. simpl. rewrite E1, E2, E3, E4, E5.
    split_and!; try done.
    unfold script_at in Es. repeat case_match; simplify_eq; by eapply list_elem_of_lookup_2.
Qed.

Lemma same_keys_refl a : same_keys a a.
Proof. by intros ch. Qed.

Lemma same_keys_insert a ch v : a !! ch ≠ None → same_keys (<[ch := v]> a) a.
Proof.
  intros Hch x. rewrite lookup_insert_is_Some. split.
  - intros [<-|[_ H]]; [by apply not_eq_None_Some|done].
  - intros H. destruct (decide (ch = x)); [by left|by right].
Qed.

Lemma same_keys_release name a' a : same_keys a' a → same_keys (release name a') a.
Proof. intros H x. unfold release. by rewrite lookup_fmap, fmap_is_Some. Qed.

Lemma room_step_refl i room : room_step i room room.
Proof. unfold room_step. split_and!; try done. by left. Qed.

Lemma registry_step_refl i w code r : registry_step i w code r r.
Proof. destruct r; simpl; [apply room_step_refl|done]. Qed.

Ltac step_keys :=
  eauto using same_keys_refl, same_keys_insert, same_keys_release, prop_str_key.

Ltac step_room :=
  repeat match goal with H : negb _ = false |- _ => apply negb_false_iff in H end;
  unfold room_step; simpl; split_and!; try done; try step_keys;
  try (by left);
  try (right; left; eexists; by split_and!);
  try (right; right; split_and!; [eauto|done|];
       unfold advanced; simpl;
       first [ rewrite decide_True by (simpl in *; lia)
             | rewrite decide_False by (simpl in *; lia) ];
       done).

Ltac step_leaf :=
  simpl; rewrite ?insert_insert_eq;
  try lazymatch goal with
    | |- registry_step _ _ ?code _ (<[?c := _]> _ !! ?code) =>
        let E := fresh "E" in
        destruct (decide (c = code)) as [E|?];
        [rewrite ?E in *; rewrite lookup_insert_eq | rewrite lookup_insert_ne by done]
    | |- registry_step _ _ ?code _ (delete ?c _ !! ?code) =>
        let E := fresh "E" in
        destruct (decide (c = code)) as [E|?];
        [rewrite ?E in *; rewrite lookup_delete_eq | rewrite lookup_delete_ne by done]
    end;
  try apply registry_step_refl;
  simplify_eq;
  repeat match goal with
    | H : rooms _ !! ?code = Some _ |- context [rooms _ !! ?code] => rewrite H
    end;
  try apply registry_step_refl; simpl; try step_room.

Lemma handle_registry_step fuel i w w' code :
  handle fuel i w = Ok tt w' →
  registry_step i w code (rooms w !! code) (rooms w' !! code).
Proof.
  intros H. destruct i; simpl in H;
    try (apply from_socket_inv in H as [->|H]; [apply registry_step_refl|]); revert H.
  - mrun; intros; simplify_eq; step_leaf.
  - unfold on_ping. mrun; intros; simplify_eq; step_leaf.
  - intros H. apply on_create_room_inv in H
      as [[_ ->]|(c & s & Hname & _ & Hfree & _ & -> & _)]; [apply registry_step_refl|].
    destruct (decide (c = code)) as [->|?].
    + rewrite Hfree, lookup_insert_eq. simpl. by eexists _, _, _.
    + rewrite lookup_insert_ne by done. apply registry_step_refl.
  - unfold on_join_room. mrun; intros; simplify_eq. all: step_leaf.
  - unfold on_claim_character. mrun; intros; simplify_eq. all: step_leaf.
  - unfold on_force_assign. mrun; intros; simplify_eq. all: step_leaf.
  - unfold on_boot_player. mrun; intros; simplify_eq. all: step_leaf.
  - unfold on_start_performance. mrun; intros; simplify_eq. all: step_leaf.
  - unfold on_beat_done. mrun; intros; simplify_eq. all: step_leaf.
  - unfold on_disconnect. mrun; intros; simplify_eq. all: step_leaf.
    by eexists _, _.
  - unfold fire, timer_callback. mrun; intros; simplify_eq. all: step_leaf.
  - mrun; intros; simplify_eq; step_leaf.
Qed.

Lemma from_socket_cases sid m w w' :
  from_socket sid m w = Ok tt w' →
  (sockets w !! sid = None ∧ w' = w) ∨ (is_Some (sockets w !! sid) ∧ m w = Ok tt w').
Proof.
  unfold from_socket. munfold. case_decide as Hs; [by right|].
  intros [= <-]. left. split; [by apply eq_None_not_Some|done].
Qed.

Lemma socket_step_same i w w' sid r :
  (∀ sid', i = Disconnect sid' → sid' ≠ sid ∨ r = None) → socket_step i w w' sid r r.
Proof.
  intros Hi. destruct r as [d|]; simpl; [|done]. left. split; [done|].
  intros ->. by destruct (Hi sid eq_refl).
Qed.

Ltac socket_leaf :=
  simpl; rewrite ?insert_insert_eq;
  try lazymatch goal with
    | |- socket_step _ _ _ ?sid _ (<[?s := _]> _ !! ?sid) =>
        let E := fresh "E" in
        destruct (decide (s = sid)) as [E|?];
        [rewrite ?E in *; rewrite lookup_insert_eq | rewrite lookup_insert_ne by done]
    | |- socket_step _ _ _ ?sid _ (delete ?s _ !! ?sid) =>
        let E := fresh "E" in
        destruct (decide (s = sid)) as [E|?];
        [rewrite ?E in *; rewrite lookup_delete_eq | rewrite lookup_delete_ne by done]
    end;
  try (apply socket_step_same; intros ? [= ?]; subst; by auto);
  simplify_eq;
  repeat match goal with
    | H : sockets _ !! ?sid = _ |- context [sockets _ !! ?sid] => rewrite H
    end;
  simpl; try done.

Lemma handle_socket_step fuel i w w' sid :
  handle fuel i w = Ok tt w' →
  socket_step i w w' sid (sockets w !! sid) (sockets w' !! sid).
Proof.
  intros H. destruct i as [s|s|s name k|s c name|s ch|s ch v|s n|s|s|s|k|ms]; simpl in H;
    try (apply from_socket_cases in H as [[Hnone ->]|[Hsome H]];
         [apply socket_step_same; intros ? [= <-];
          destruct (decide (s = sid)) as [<-|?]; by auto|]);
    revert H.
  - mrun; intros; simplify_eq; socket_leaf.
    match goal with H : ¬ is_Some _ |- _ => apply eq_None_not_Some in H; by rewrite H end.
  - unfold on_ping. mrun; intros; simplify_eq; socket_leaf.
  - intros H. apply on_create_room_inv in H
      as [[_ ->]|(c & sc & Hname & _ & Hfree & _ & Hrooms & -> & _)].
    { apply socket_step_same. by intros ? [=]. }
    destruct (decide (s = sid)) as [<-|?].
    + rewrite lookup_insert_eq. destruct Hsome as [d ->]. simpl.
      right. left. eexists _, _, _, _. split_and!; try done;
        [by rewrite Hrooms, lookup_insert_eq|done].
    + rewrite lookup_insert_ne by done. apply socket_step_same. by intros ? [=].
  - unfold on_join_room. mrun; intros; simplify_eq. all: socket_leaf.
    destruct Hsome as [d ->]. simpl. right. right. eexists _, _. by split_and!.
  - unfold on_claim_character. mrun; intros; simplify_eq. all: socket_leaf.
  - unfold on_force_assign. mrun; intros; simplify_eq. all: socket_leaf.
  - unfold on_boot_player. mrun; intros; simplify_eq. all: socket_leaf.
  - unfold on_start_performance. mrun; intros; simplify_eq. all: socket_leaf.
  - unfold on_beat_done. mrun; intros; simplify_eq. all: socket_leaf.
  - unfold on_disconnect. mrun; intros; simplify_eq. all: socket_leaf.
  - unfold fire, timer_callback. mrun; intros; simplify_eq. all: socket_leaf.
  - mrun; intros; simplify_eq; socket_leaf.
Qed.

Ltac reflect_one :=
  simpl; rewrite ?lookup_insert_eq, ?lookup_delete_eq; try done;
  try (eexists; split; [first [reflexivity|eassumption]|]; simpl; unfold active_player;
       split_and?; done).

Ltac reflect_leaf :=
  simpl; rewrite ?insert_insert_eq, <- ?app_assoc;
  first
    [ by (exists []; split; [by rewrite app_nil_r|constructor])
    | eexists; split; [reflexivity|];
      simpl; repeat (apply Forall_cons; split); try apply Forall_nil; reflect_one ].

Lemma handle_reflects fuel i w w' :
  handle fuel i w = Ok tt w' →
  ∃ out, emitted w' = emitted w ++ out ∧ Forall (reflects w') out.
Proof.
  intros H. destruct i; simpl in H;
    try (apply from_socket_inv in H as [->|H];
         [by (exists []; split; [by rewrite app_nil_r|constructor])|]);
    revert H.
  - mrun; intros; simplify_eq; reflect_leaf.
  - unfold on_ping. mrun; intros; simplify_eq; reflect_leaf.
  - intros H. apply on_create_room_inv in H
      as [[_ ->]|(c & sc & _ & _ & _ & _ & _ & _ & _ & _ & ->)]; simpl;
      eexists; (split; [reflexivity|]); by repeat constructor.
  - unfold on_join_room. mrun; intros; simplify_eq. all: reflect_leaf.
  - unfold on_claim_character. mrun; intros; simplify_eq. all: reflect_leaf.
  - unfold on_force_assign. mrun; intros; simplify_eq. all: reflect_leaf.
  - unfold on_boot_player. mrun; intros; simplify_eq. all: reflect_leaf.
  - unfold on_start_performance. mrun; intros; simplify_eq. all: reflect_leaf.
  - unfold on_beat_done. mrun; intros; simplify_eq. all: reflect_leaf.
  - unfold on_disconnect. mrun; intros; simplify_eq. all: reflect_leaf.
  - unfold fire, timer_callback. mrun; intros; simplify_eq. all: reflect_leaf.
  - mrun; intros; simplify_eq; reflect_leaf.
Qed.


(** X10: an entry of the registry appears only by create-room, as a
    lobby at beat 0 without players and with every character
    unassigned, and disappears only by the disconnect of a socket that
    holds the role of host for it. *)
Theorem registry_entries_come_and_go fuel i w w' code :
  handle fuel i w = Ok tt w' →
  (∀ room', rooms w !! code = None → rooms w' !! code = Some room' →
     ∃ sid name scriptIndex,
       i = CreateRoom sid name scriptIndex
       ∧ room' = mkRoom sid (trim (default "" name)) [] (script room')
                   (unassigned (characters (script room'))) lobby 0)
  ∧ (∀ room, rooms w !! code = Some room → rooms w' !! code = None →
       ∃ sid d, i = Disconnect sid ∧ sockets w !! sid = Some d
                ∧ d_code d = Some code ∧ d_role d = Some host).
Proof.
  intros H. pose proof (handle_registry_step fuel i w w' code H) as Hstep. split.
  - intros room' Hr Hr'. rewrite Hr, Hr' in Hstep.
    destruct Hstep as (sid & name & k & -> & ? & ? & ? & ? & ? & ?).
    exists sid, name, k. split; [done|]. destruct room'; simpl in *. by subst.
  - intros room Hr Hr'. by rewrite Hr, Hr' in Hstep.
Qed.

(** X11: the state and the beat index of a room change in two ways
    only: start-performance, on a fully cast room, makes them
    performance and 0; beat-done or a timer, during a performance,
    moves one beat on, and ends the room when that leaves the script. *)
Theorem state_changes_only_by_start_and_advance fuel i w w' code room room' :
  handle fuel i w = Ok tt w' →
  rooms w !! code = Some room → rooms w' !! code = Some room' →
  (state room' = state room ∧ currentBeat room' = currentBeat room)
  ∨ (∃ sid, i = StartPerformance sid ∧ allCharactersAssigned room = true
            ∧ state room' = performance ∧ currentBeat room' = 0)
  ∨ (((∃ sid, i = BeatDone sid) ∨ (∃ k, i = TimerFires k))
     ∧ state room = performance ∧ currentBeat room' = S (currentBeat room)
     ∧ state room' =
         if decide (length (beats (script room)) ≤ S (currentBeat room))%nat
         then ended else performance).
Proof.
  intros H Hr Hr'. pose proof (handle_registry_step fuel i w w' code H) as Hstep.
  rewrite Hr, Hr' in Hstep. destruct Hstep as (_ & _ & _ & _ & Hstate).
  destruct Hstate as [?|[(sid & -> & ? & ->)|(Hi & Hs & ->)]]; [by left| |].
  - right. left. by exists sid.
  - right. right. split_and!; try done; unfold advanced; by case_decide.
Qed.

(** X12: [socket.data] of a connected socket is written by that
    socket's own create-room, which makes it host, and join-room,
    which makes it player, and by nothing else. *)
Theorem socket_data_written_by_own_requests fuel i w w' sid d d' :
  handle fuel i w = Ok tt w' →
  sockets w !! sid = Some d → sockets w' !! sid = Some d' → d' ≠ d →
  (∃ name scriptIndex code,
     i = CreateRoom sid name scriptIndex
     ∧ d' = mkData (Some code) (Some host) (Some (trim (default "" name)))
     ∧ rooms w !! code = None)
  ∨ (∃ code name,
       i = JoinRoom sid code name
       ∧ d' = mkData (Some code) (Some player) (Some (trim (default "" name)))
       ∧ is_Some (rooms w !! code)).
Proof.
  intros H Hd Hd' Hne. pose proof (handle_socket_step fuel i w w' sid H) as Hstep.
  rewrite Hd, Hd' in Hstep.
  destruct Hstep as [[? _]|[(name & k & c & r & ? & ? & ? & _)|(c & name & ? & ? & ?)]];
    [done| |].
  - left. by exists name, k, c.
  - right. by exists c, name.
Qed.

Lemma handle_hosts_own fuel i w w' : hosts_own w → handle fuel i w = Ok tt w' → hosts_own w'.
Proof.
  intros Hinv H sid d' code Hd' Hc Hrole.
  pose proof (handle_socket_step fuel i w w' sid H) as Hs. rewrite Hd' in Hs.
  destruct (sockets w !! sid) as [d|] eqn:Hd; simpl in Hs.
  - destruct Hs as [[-> Hi]|[(name & k & c & room' & -> & -> & Hfree & Hr' & Hid)
                             |(c & name & -> & -> & _)]].
    + destruct (Hinv sid d code Hd Hc Hrole) as (room & Hr & Hid).
      pose proof (handle_registry_step fuel i w w' code H) as Hreg. rewrite Hr in Hreg.
      destruct (rooms w' !! code) as [room'|] eqn:Hr'; simpl in Hreg.
      * exists room'. split; [done|]. destruct Hreg as (-> & _). done.
      * destruct Hreg as (sid1 & d1 & -> & Hd1 & Hc1 & Hrole1).
        destruct (Hinv sid1 d1 code Hd1 Hc1 Hrole1) as (room1 & Hr1 & Hid1).
        by simplify_eq.
    + simpl in Hc. injection Hc as <-. by exists room'.
    + done.
  - by destruct Hs as [-> ->].
Qed.

Lemma reachable_hosts_own w : reachable w → hosts_own w.
Proof. induction 1; [by intros sid d code ?|by eapply handle_hosts_own]. Qed.

(** X13: in a running server a socket in the role of host is the
    socket that created the room behind its code, that room is in the
    registry, and no other socket is host of it. *)
Theorem host_role_means_creator w sid d code :
  reachable w → sockets w !! sid = Some d → d_code d = Some code →
  d_role d = Some host →
  (∃ room, rooms w !! code = Some room ∧ hostId room = sid)
  ∧ (∀ sid' d', sockets w !! sid' = Some d' → d_code d' = Some code →
       d_role d' = Some host → sid' = sid).
Proof.
  intros Hw Hd Hc Hrole. apply reachable_hosts_own in Hw.
  destruct (Hw sid d code Hd Hc Hrole) as (room & Hr & Hid).
  split; [by exists room|].
  intros sid' d' Hd' Hc' Hrole'.
  destruct (Hw sid' d' code Hd' Hc' Hrole') as (room' & Hr' & Hid'). by simplify_eq.
Qed.

(** X14: everything an input makes the server send to a room agrees
    with the room as the input leaves it: player list, casting and
    whether it is complete, the beat with its index, total and active
    player, and the end of the performance; "host-left" goes to a room
    that is gone. *)
Theorem broadcasts_tell_the_final_state fuel i w w' :
  handle fuel i w = Ok tt w' →
  ∃ out, emitted w' = emitted w ++ out ∧ Forall (reflects w') out.
Proof. apply handle_reflects. Qed.

Lemma reflects_beat_notice_ok w e :
  scripts_known preparedScripts w → reflects w e → beat_notice_ok preparedScripts e.
Proof.
  intros Hk. destruct e as [code ev|sid ev|sid r]; simpl; [|by destruct ev|done].
  destruct ev; try done.
  intros (room & Hr & _ & -> & -> & Hb & ->). exists (script room).
  split_and!; try done; [by apply (Hk code room Hr)|].
  destruct beat; simpl; [apply owner_ok_js_or|done].
Qed.

Lemma handle_beat_notices fuel i w w' :
  scripts_known preparedScripts w' →
  Forall (beat_notice_ok preparedScripts) (emitted w) →
  handle fuel i w = Ok tt w' →
  Forall (beat_notice_ok preparedScripts) (emitted w').
Proof.
  intros Hk Hlog H. apply handle_reflects in H as (out & -> & Hout).
  apply Forall_app_2; [done|]. eapply Forall_impl; [exact Hout|].
  intros e. by apply reflects_beat_notice_ok.
Qed.

(** X15: every beat notification a running server has sent went to a
    room, and told a beat of a script of the catalogue, with its index
    (so below the total), the length of that script as total, and as
    active player [null] for a direction and [null] or a non-empty
    name for a line. *)
Theorem beat_notices_well_formed w :
  reachable w → Forall (beat_notice_ok preparedScripts) (emitted w).
Proof.
  induction 1 as [|w fuel i w' Hw IH H]; [constructor|].
  eapply handle_beat_notices; [|done|done].
  apply (reachable_scripts preparedScripts rnd). by eapply reachable_step.
Qed.

(** *** Rooms without a host *)

Lemma handle_unhosted fuel i w w' code :
  is_Some (rooms w !! code) → unhosted code w → handle fuel i w = Ok tt w' →
  is_Some (rooms w' !! code) ∧ unhosted code w'.
Proof.
  intros [room Hr] Hno H. split.
  - pose proof (handle_registry_step fuel i w w' code H) as Hreg. rewrite Hr in Hreg.
    destruct (rooms w' !! code) as [room'|]; [by eexists|]. simpl in Hreg.
    destruct Hreg as (sid & d & _ & Hd & Hc & Hrole). by destruct (Hno sid d Hd Hc).
  - intros sid d' Hd' Hc.
    pose proof (handle_socket_step fuel i w w' sid H) as Hs. rewrite Hd' in Hs.
    destruct (sockets w !! sid) as [d|] eqn:Hd; simpl in Hs.
    + destruct Hs as [[-> _]|[(name & k & c & room' & _ & -> & Hfree & _)
                              |(c & name & _ & -> & _)]]; [by eapply Hno| |done].
      simpl in Hc. injection Hc as ->. by rewrite Hr in Hfree.
    + destruct Hs as [_ ->]. done.
Qed.

(** X16: a room for which no connected socket is host stays in the
    registry whatever comes in, and never gets a host again. *)
Theorem unhosted_room_is_never_closed fuel inputs w w' code :
  is_Some (rooms w !! code) → unhosted code w → run fuel inputs w = Ok tt w' →
  is_Some (rooms w' !! code) ∧ unhosted code w'.
Proof.
  revert w. induction inputs as [|i inputs IH]; intros w Hr Hno; simpl; munfold.
  - by intros [= <-].
  - destruct (handle fuel i w) as [[] w1| |] eqn:E; try done.
    destruct (handle_unhosted _ _ _ _ _ Hr Hno E). by apply IH.
Qed.

(** X17: when the socket that hosts a room gets new [socket.data], by
    creating another room or by joining one, the room it hosted stays
    in the registry and no socket is its host any more. *)
Theorem rebound_host_leaves_room_unhosted fuel i w w' sid d d' code :
  reachable w → sockets w !! sid = Some d → d_code d = Some code →
  d_role d = Some host →
  handle fuel i w = Ok tt w' → sockets w' !! sid = Some d' → d' ≠ d →
  is_Some (rooms w' !! code) ∧ unhosted code w'.
Proof.
  intros Hw Hd Hc Hrole H Hd' Hne. apply reachable_hosts_own in Hw.
  destruct (Hw sid d code Hd Hc Hrole) as (room & Hr & Hid).
  pose proof (handle_socket_step fuel i w w' sid H) as Hs. rewrite Hd, Hd' in Hs.
  simpl in Hs.
  assert (∀ sid0, i ≠ Disconnect sid0) as Hi.
  { intros sid0 ->.
    by destruct Hs as [[? _]|[(? & ? & ? & ? & ? & _)|(? & ? & ? & _)]]. }
  split.
  - pose proof (handle_registry_step fuel i w w' code H) as Hreg. rewrite Hr in Hreg.
    destruct (rooms w' !! code) as [room'|]; [by eexists|]. simpl in Hreg.
    destruct Hreg as (sid0 & _ & -> & _). by destruct (Hi sid0).
  - intros sid1 d1 Hd1 Hc1 Hrole1.
    pose proof (handle_socket_step fuel i w w' sid1 H) as Hs1. rewrite Hd1 in Hs1.
    destruct (sockets w !! sid1) as [d0|] eqn:Hd0; simpl in Hs1.
    + destruct Hs1 as [[-> _]|[(name & k & c & room' & _ & -> & Hfree & _)
                               |(c & name & _ & -> & _)]]; [| |done].
      * destruct (Hw sid1 d0 code Hd0 Hc1 Hrole1) as (room1 & Hr1 & Hid1).
        assert (sid1 = sid) as -> by (by simplify_eq). by simplify_eq.
      * simpl in Hc1. injection Hc1 as ->. by rewrite Hr in Hfree.
    + destruct Hs1 as [_ ->]. done.
Qed.

(** *** Uncaught errors *)





Lemma run_cons fuel i l w :
  run fuel (i :: l) w
  = match handle fuel i w with
    | Ok _ w' => run fuel l w'
    | Throw w' => Throw w'
    | Fuel => Fuel
    end.
Proof. reflexivity. Qed.




(** *** Names *)





(** *** Directions and their timers *)

Lemma elem_of_take_drop {A} (l : list A) k x y :
  l !! k = Some y → x ∈ l → x ≠ y → x ∈ take k l ++ drop (S k) l.
Proof.
  intros Hk Hx Hne. apply list_elem_of_lookup_1 in Hx as [j Hj]. apply elem_of_app.
  destruct (decide (j < k)%nat) as [Hlt|Hge].
  - left. apply list_elem_of_lookup_2 with j. by rewrite lookup_take_lt.
  - right. assert (j ≠ k) by (intros ->; congruence).
    apply list_elem_of_lookup_2 with (j - S k)%nat. rewrite lookup_drop.
    by replace (S k + (j - S k))%nat with j by lia.
Qed.

Ltac armed_new :=
  eexists; split_and!;
  [ apply elem_of_app; right; apply list_elem_of_singleton; reflexivity
  | done | done | simpl; lia ].

Ltac stale_timer :=
  first [ done
        | congruence
        | match goal with H : ¬ (_ ∧ _) |- _ => apply H; split; congruence end ].

Ltac armed_old Harmed :=
  match goal with
  | H : rooms _ !! ?c = Some ?r |- _ =>
      let t0 := fresh "t0" in
      let Hin := fresh "Hin" in
      edestruct (Harmed c r) as (t0 & Hin & ? & ? & ?); [exact H|done|eassumption|];
      exists t0; split_and!; [|done|simpl in *; congruence|simpl in *; lia];
      simpl;
      first [ assumption
            | apply elem_of_app; left; assumption
            | apply elem_of_app; left;
              eapply elem_of_take_drop; [eassumption|assumption|];
              intros ->; simpl in *; subst; simplify_eq; stale_timer
            | eapply elem_of_take_drop; [eassumption|assumption|];
              intros ->; simpl in *; subst; simplify_eq; stale_timer ]
  end.

Ltac armed_leaf Harmed :=
  intros ? ? ? ? ? ?; simpl in *; rewrite ?insert_insert_eq in *;
  armed_rooms; simplify_eq/=;
  try congruence;
  first [ armed_new | armed_old Harmed ].

Lemma handle_armed fuel i w w' : armed w → handle fuel i w = Ok tt w' → armed w'.
Proof.
  intros Harmed H. destruct i; simpl in H;
    try (apply from_socket_inv in H as [->|H]; [done|]); revert H.
  - mrun; intros; simplify_eq; armed_leaf Harmed.
  - unfold on_ping. mrun; intros; simplify_eq; armed_leaf Harmed.
  - intros H. apply on_create_room_inv in H
      as [[_ ->]|(c & sc & _ & _ & Hfree & _ & Hrooms & _ & Htimers & Hnow & _)].
    { intros code0 room0 text0 Hr0 Hs0 Hb0. by apply (Harmed code0 room0 text0). }
    intros code0 room0 text0 Hr0 Hs0 Hb0. rewrite Hrooms in Hr0.
    rewrite Htimers, Hnow. armed_rooms; simplify_eq/=. by apply (Harmed code0 room0 text0).
  - unfold on_join_room. mrun; intros; simplify_eq. all: armed_leaf Harmed.
  - unfold on_claim_character. mrun; intros; simplify_eq. all: armed_leaf Harmed.
  - unfold on_force_assign. mrun; intros; simplify_eq. all: armed_leaf Harmed.
  - unfold on_boot_player. mrun; intros; simplify_eq. all: armed_leaf Harmed.
  - unfold on_start_performance. mrun; intros; simplify_eq. all: armed_leaf Harmed.
  - unfold on_beat_done. mrun; intros; simplify_eq. all: armed_leaf Harmed.
  - unfold on_disconnect. mrun; intros; simplify_eq. all: armed_leaf Harmed.
  - unfold fire, timer_callback. mrun; intros; simplify_eq. all: armed_leaf Harmed.
  - mrun; intros; simplify_eq; armed_leaf Harmed.
Qed.

Lemma reachable_armed w : reachable w → armed w.
Proof.
  induction 1; [|by eapply handle_armed].
  intros code room text Hr. simpl in Hr. by rewrite lookup_empty in Hr.
Qed.

(** X21: a room of the running server that performs a direction has
    an auto-advance timer pending for that beat, due within the fixed
    delay; once it is due, its firing moves the room one beat on. *)
Theorem direction_has_pending_timer w fuel code room text :
  reachable w → rooms w !! code = Some room → state room = performance →
  beats (script room) !! currentBeat room = Some (direction text) →
  ∃ k t, timers w !! k = Some t
    ∧ t_code t = code ∧ t_beatIndex t = currentBeat room
    ∧ (t_due t ≤ now w + delay)%nat
    ∧ ∀ ms, (t_due t ≤ now w + ms)%nat →
        ∃ w', run fuel [TimePasses ms; TimerFires k] w = Ok tt w'
          ∧ rooms w' = <[code := advanced room]> (rooms w).
Proof.
  intros Hw Hr Hs Hb.
  destruct (reachable_armed w Hw code room text Hr Hs Hb) as (t & Hin & Hc & Hi & Hdue).
  apply list_elem_of_lookup_1 in Hin as [k Hk]. exists k, t. split_and!; try done.
  intros ms Hms. rewrite !run_cons. simpl. unfold fire. munfold. simpl. rewrite Hk.
  rewrite decide_True by done.
  match goal with
  | |- context [timer_callback t ?v] =>
      destruct (timer_callback_live t v room) as (w' & -> & Hrooms & _);
        [by rewrite Hc|done|done|]
  end.
  exists w'. split; [done|]. by rewrite Hrooms, Hc.
Qed.

(** *** Who changes the casting *)

Ltac casting_leaf :=
  simpl in *; rewrite ?insert_insert_eq in *;
  armed_rooms; simplify_eq/=;
  first
    [ by left
    | right; unfold casting_step;
      first
        [ left; eexists _, _, _; by split_and!
        | right; left; eexists _, _, _, _; by split_and!
        | right; right; left; eexists _, _, _; by split_and!
        | right; right; right; eexists _, _; by split_and! ] ].

Lemma handle_casting_step fuel i w w' code room :
  handle fuel i w = Ok tt w' → rooms w !! code = Some room →
  ∀ room', rooms w' !! code = Some room' →
    assignments room' = assignments room ∨ casting_step i w code room.
Proof.
  intros H Hr. destruct i; simpl in H;
    try (apply from_socket_inv in H as [->|H];
         [intros room' Hr'; left; congruence|]);
    revert H.
  - mrun; intros; simplify_eq; casting_leaf.
  - unfold on_ping. mrun; intros; simplify_eq; casting_leaf.
  - intros H. apply on_create_room_inv in H
      as [[_ ->]|(c & s & Hname & _ & Hfree & _ & -> & _)];
      [intros room' Hr'; left; simpl in *; congruence|].
    intros room' Hr'. destruct (decide (c = code)) as [->|?]; [congruence|].
    rewrite lookup_insert_ne in Hr' by done. left. congruence.
  - unfold on_join_room. mrun; intros; simplify_eq. all: casting_leaf.
  - unfold on_claim_character. mrun; intros; simplify_eq. all: casting_leaf.
  - unfold on_force_assign. mrun; intros; simplify_eq. all: casting_leaf.
  - unfold on_boot_player. mrun; intros; simplify_eq. all: casting_leaf.
  - unfold on_start_performance. mrun; intros; simplify_eq. all: casting_leaf.
  - unfold on_beat_done. mrun; intros; simplify_eq. all: casting_leaf.
  - unfold on_disconnect. mrun; intros; simplify_eq. all: casting_leaf.
  - unfold fire, timer_callback. mrun; intros; simplify_eq. all: casting_leaf.
  - mrun; intros; simplify_eq; casting_leaf.
Qed.

(** X22: the casting of a room changes only by a claim made in the
    lobby by a socket bound to the room, by force-assign or
    boot-player from a socket in the role of host for it, or by the
    disconnect of a socket bound to it that is not host: outside the
    lobby a player changes the casting only by leaving. *)
Theorem casting_changes_only_by_casting_requests fuel i w w' code room room' :
  handle fuel i w = Ok tt w' →
  rooms w !! code = Some room → rooms w' !! code = Some room' →
  assignments room' ≠ assignments room →
  casting_step i w code room.
Proof.
  intros H Hr Hr' Hne. by destruct (handle_casting_step fuel i w w' code room H Hr room' Hr').
Qed.

(** *** The retry loop of [makeUniqueCode] *)

Lemma makeUniqueCode_inv fuel : ∀ w,
  match makeUniqueCode rnd fuel w with
  | Ok c w' =>
      ∃ k, (k < fuel)%nat
        ∧ (∀ j, (j < k)%nat → is_Some (rooms w !! code_at rnd (drawn w + 4 * j)))
        ∧ rooms w !! code_at rnd (drawn w + 4 * k) = None
        ∧ c = code_at rnd (drawn w + 4 * k)
        ∧ w' = mkWorld (rooms w) (sockets w) (timers w) (now w) (emitted w)
                 (drawn w + 4 * S k)
  | Throw _ => False
  | Fuel => ∀ k, (k < fuel)%nat → is_Some (rooms w !! code_at rnd (drawn w + 4 * k))
  end.
Proof.
  induction fuel as [|fuel IH]; intros w; cbn [makeUniqueCode].
  - intros k Hk. lia.
  - munfold. rewrite (generateCode_eq rnd). cbn [rooms].
    destruct (decide (is_Some (rooms w !! code_at rnd (drawn w)))) as [Htaken|Hfree].
    + specialize (IH (mkWorld (rooms w) (sockets w) (timers w) (now w) (emitted w)
                        (4 + drawn w))).
      assert (∀ k, (4 + drawn w + 4 * k = drawn w + 4 * S k)%nat) as Hshift by lia.
      destruct (makeUniqueCode rnd fuel _) as [c w'| |];
        cbn [rooms sockets timers now emitted drawn] in IH; [|done|].
      * destruct IH as (k & Hk & Hbefore & Hnone & -> & ->). exists (S k).
        rewrite !Hshift in *. split_and!; try done; try lia; try (f_equal; lia).
        intros [|j] Hj; [by rewrite Nat.add_0_r|]. rewrite <- Hshift. apply Hbefore. lia.
      * intros [|k] Hk; [by rewrite Nat.add_0_r|]. rewrite <- Hshift. apply IH. lia.
    + exists 0. rewrite Nat.add_0_r. split_and!; try done; try lia; try (f_equal; lia).
      by apply eq_None_not_Some.
Qed.

(** X23: [makeUniqueCode] returns the first code of the draw sequence
    that the registry does not hold, after four draws for each round,
    and changes nothing but the count of draws; it goes on for as long
    as the codes drawn are taken. *)
Theorem makeUniqueCode_first_free fuel w :
  (∀ c w', makeUniqueCode rnd fuel w = Ok c w' ↔
     ∃ k, (k < fuel)%nat
       ∧ (∀ j, (j < k)%nat → is_Some (rooms w !! code_at rnd (drawn w + 4 * j)))
       ∧ rooms w !! code_at rnd (drawn w + 4 * k) = None
       ∧ c = code_at rnd (drawn w + 4 * k)
       ∧ w' = mkWorld (rooms w) (sockets w) (timers w) (now w) (emitted w)
                (drawn w + 4 * S k))
  ∧ (makeUniqueCode rnd fuel w = Fuel ↔
     ∀ k, (k < fuel)%nat → is_Some (rooms w !! code_at rnd (drawn w + 4 * k))).
Proof.
  pose proof (makeUniqueCode_inv fuel w) as H. split.
  - intros c w'. split.
    + intros E. by rewrite E in H.
    + intros (k & Hk & Hbefore & Hnone & -> & ->).
      destruct (makeUniqueCode rnd fuel w) as [c1 w1| |]; [|done|].
      * destruct H as (k1 & Hk1 & Hbefore1 & Hnone1 & -> & ->).
        assert (k1 = k) as ->; [|done].
        destruct (Nat.lt_trichotomy k1 k) as [Hlt|[->|Hgt]]; [|done|].
        -- destruct (Hbefore k1 Hlt) as [? E]. congruence.
        -- destruct (Hbefore1 k Hgt) as [? E]. congruence.
      * destruct (H k Hk) as [? E]. congruence.
  - split.
    + intros E. by rewrite E in H.
    + intros Hall. destruct (makeUniqueCode rnd fuel w) as [c1 w1| |]; [|done|done].
      destruct H as (k1 & Hk1 & _ & Hnone1 & _). destruct (Hall k1 Hk1) as [? E]. congruence.
Qed.

(** *** Rooms do not interfere *)

Ltac isolation_rooms :=
  simpl; rewrite ?insert_insert_eq;
  try lazymatch goal with
    | |- <[?c := _]> _ !! ?code = _ ∨ _ =>
        let E := fresh "E" in
        destruct (decide (c = code)) as [E|?];
        [rewrite ?E in * | by (left; rewrite lookup_insert_ne by done)]
    | |- delete ?c _ !! ?code = _ ∨ _ =>
        let E := fresh "E" in
        destruct (decide (c = code)) as [E|?];
        [rewrite ?E in * | by (left; rewrite lookup_delete_ne by done)]
    end.

Ltac isolation_leaf :=
  isolation_rooms;
  first
    [ by left
    | right; unfold concerns; simpl;
      first
        [ left; eexists _, _; by split_and!
        | right; left; by eexists _, _
        | right; right; right; eexists _, _; by split_and! ] ].

Lemma handle_isolation fuel i w w' code :
  handle fuel i w = Ok tt w' →
  rooms w' !! code = rooms w !! code ∨ concerns i w code.
Proof.
  intros H. destruct i; simpl in H;
    try (apply from_socket_inv in H as [->|H]; [by left|]); revert H.
  - mrun; intros; simplify_eq; isolation_leaf.
  - unfold on_ping. mrun; intros; simplify_eq; isolation_leaf.
  - intros H. apply on_create_room_inv in H
      as [[_ ->]|(c & s & Hname & _ & Hfree & _ & -> & _)]; [by left|].
    destruct (decide (c = code)) as [->|?].
    + right. right. right. left. by eexists _, _, _.
    + left. by rewrite lookup_insert_ne.
  - unfold on_join_room. mrun; intros; simplify_eq. all: isolation_leaf.
  - unfold on_claim_character. mrun; intros; simplify_eq. all: isolation_leaf.
  - unfold on_force_assign. mrun; intros; simplify_eq. all: isolation_leaf.
  - unfold on_boot_player. mrun; intros; simplify_eq. all: isolation_leaf.
  - unfold on_start_performance. mrun; intros; simplify_eq. all: isolation_leaf.
  - unfold on_beat_done. mrun; intros; simplify_eq. all: isolation_leaf.
  - unfold on_disconnect. mrun; intros; simplify_eq. all: isolation_leaf.
  - unfold fire, timer_callback. mrun; intros; simplify_eq. all: isolation_leaf.
  - mrun; intros; simplify_eq; isolation_leaf.
Qed.

(** X25: an input changes the registry entry of a room only if it
    concerns that room: it is a request of a socket bound to the room,
    a join-room for its code, the create-room that draws its code, or
    a timer armed for it.  Rooms do not interfere with each other. *)
Theorem rooms_are_isolated fuel i w w' code :
  handle fuel i w = Ok tt w' →
  rooms w' !! code ≠ rooms w !! code → concerns i w code.
Proof. intros H Hne. by destruct (handle_isolation fuel i w w' code H). Qed.

(** *** Who changes the player list *)

Ltac players_leaf :=
  simpl in *; rewrite ?insert_insert_eq in *;
  armed_rooms; simplify_eq/=;
  first
    [ by left
    | right; unfold players_step;
      first
        [ left; eexists _, _; by split_and!
        | right; left; eexists _, _, _; by split_and!
        | right; right; eexists _, _; by split_and! ] ].

Lemma handle_players_step fuel i w w' code room :
  handle fuel i w = Ok tt w' → rooms w !! code = Some room →
  ∀ room', rooms w' !! code = Some room' → players_step i w code room room'.
Proof.
  intros H Hr. destruct i; simpl in H;
    try (apply from_socket_inv in H as [->|H];
         [intros room' Hr'; left; congruence|]);
    revert H.
  - mrun; intros; simplify_eq; players_leaf.
  - unfold on_ping. mrun; intros; simplify_eq; players_leaf.
  - intros H. apply on_create_room_inv in H
      as [[_ ->]|(c & s & Hname & _ & Hfree & _ & -> & _)];
      [intros room' Hr'; left; simpl in *; congruence|].
    intros room' Hr'. destruct (decide (c = code)) as [->|?]; [congruence|].
    rewrite lookup_insert_ne in Hr' by done. left. congruence.
  - unfold on_join_room. mrun; intros; simplify_eq. all: players_leaf.
  - unfold on_claim_character. mrun; intros; simplify_eq. all: players_leaf.
  - unfold on_force_assign. mrun; intros; simplify_eq. all: players_leaf.
  - unfold on_boot_player. mrun; intros; simplify_eq. all: players_leaf.
  - unfold on_start_performance. mrun; intros; simplify_eq. all: players_leaf.
  - unfold on_beat_done. mrun; intros; simplify_eq. all: players_leaf.
  - unfold on_disconnect. mrun; intros; simplify_eq. all: players_leaf.
  - unfold fire, timer_callback. mrun; intros; simplify_eq. all: players_leaf.
  - mrun; intros; simplify_eq; players_leaf.
Qed.

(** X26: the player list of a room changes in three ways only: a
    join-room outside a performance appends the joining socket under
    its trimmed name, boot-player from the room's host removes the
    players of one name, and the disconnect of a socket bound to the
    room that is not host removes the entries of that socket; the
    order of the others is kept. *)
Theorem players_change_only_by_join_boot_and_leave fuel i w w' code room room' :
  handle fuel i w = Ok tt w' →
  rooms w !! code = Some room → rooms w' !! code = Some room' →
  players_step i w code room room'.
Proof. intros H Hr Hr'. by apply (handle_players_step fuel i w w' code room H Hr). Qed.

End Steps.

(** ** The script catalogue endpoint *)

Section Endpoint.

Variable preparedScripts : list Script.
Variable rnd : nat → nat.
Variable author description : Script → jsval.
Variable difficulty : Character → jsval.

Local Abbreviation listing := (api_scripts preparedScripts author description difficulty).

Lemma js_or_null v : js_or v null ≠ undefined ∧ js_or v null ≠ str "".
Proof.
  unfold js_or. destruct v as [| |s]; simpl; [done|done|].
  destruct (String.eqb_spec s "") as [->|Hs]; simpl; [done|]. split; [done|]. congruence.
Qed.

(** What create-room registers for an index below the length of the
    catalogue. *)
Lemma on_create_room_script fuel sid name k s w w' :
  trim (default "" name) ≠ "" → preparedScripts !! k = Some s →
  on_create_room preparedScripts rnd fuel sid name (Z.of_nat k) w = Ok tt w' →
  ∃ code, rooms w !! code = None
    ∧ rooms w' =
        <[code := mkRoom sid (trim (default "" name)) [] s (unassigned (characters s))
                    lobby 0]> (rooms w)
    ∧ last (emitted w') = Some (Callback sid (created code s)).
Proof.
  intros Hname Hk. apply String.eqb_neq in Hname.
  unfold on_create_room. munfold. rewrite Hname.
  destruct (makeUniqueCode rnd fuel w) as [c w0| |] eqn:E; try done.
  apply makeUniqueCode_frame in E. destruct E as (Hfree & E1 & _ & _ & _ & E2).
  unfold script_at. rewrite decide_True by lia. rewrite Nat2Z.id, Hk. simpl.
  intros [= <-]. exists c. simpl. rewrite E1, E2. split_and!; try done.
  by rewrite last_snoc.
Qed.

(** X24: the list of [GET /api/scripts] has one entry for each script
    of the catalogue, in order, with the script's position as [id];
    author, description and difficulty are never [undefined] there.
    The [id] is an index that create-room accepts: with it as
    [scriptIndex], a create-room that returns has registered a room
    for the script with the listed title, characters, line counts and
    number of beats, and not for the first script as a fall-back. *)
Theorem listed_script_is_the_script_created i info :
  listing !! i = Some info →
  si_id info = i
  ∧ (i < length preparedScripts)%nat
  ∧ length listing = length preparedScripts
  ∧ si_author info ≠ undefined ∧ si_description info ≠ undefined
  ∧ Forall (λ ci, ci_difficulty ci ≠ undefined) (si_characters info)
  ∧ ∀ fuel sid name w w',
      trim (default "" name) ≠ "" →
      on_create_room preparedScripts rnd fuel sid name (Z.of_nat (si_id info)) w = Ok tt w' →
      ∃ code room,
        rooms w !! code = None ∧ rooms w' !! code = Some room
        ∧ title (script room) = si_title info
        ∧ length (beats (script room)) = si_beatCount info
        ∧ (λ c, (c_name c, lineCount c)) <$> characters (script room)
          = (λ ci, (ci_name ci, ci_lineCount ci)) <$> si_characters info.
Proof.
  intros Hi. unfold api_scripts in Hi. rewrite list_lookup_imap in Hi.
  destruct (preparedScripts !! i) as [s|] eqn:Hs; [|done].
  simpl in Hi. injection Hi as <-. simpl. split_and!.
  - done.
  - by eapply lookup_lt_Some.
  - apply length_imap.
  - apply js_or_null.
  - apply js_or_null.
  - apply Forall_fmap, Forall_forall. intros c _. simpl. apply js_or_null.
  - intros fuel sid name w w' Hname E.
    destruct (on_create_room_script fuel sid name i s w w' Hname Hs E)
      as (code & Hfree & Hrooms & _).
    exists code. eexists. rewrite Hrooms, lookup_insert_eq. split_and!; try done.
    simpl. by rewrite <- list_fmap_compose.
Qed.

End Endpoint.

(** ** The catalogue after the line-count pass *)

(** X20: when the catalogue is the result of the line-count pass, the
    script of every room of the running server is a script after that
    pass: every character carries as [lineCount] the number of its
    lines in the script the room plays. *)
Theorem rooms_carry_line_counts raw rnd w code room :
  reachable (prepare <$> raw) rnd w → rooms w !! code = Some room →
  ∃ s, s ∈ raw ∧ script room = prepare s
    ∧ Forall (λ c, lineCount c = lines_of (c_name c) (beats (script room)))
        (characters (script room)).
Proof.
  intros Hw Hr.
  pose proof (reachable_scripts _ _ w Hw code room Hr) as Hin. simpl in Hin.
  apply list_elem_of_fmap in Hin as (s & Hs & Hin). exists s. split_and!; [done|done|].
  rewrite Hs. apply Forall_forall. intros c Hc.
  destruct (prepare_lineCount s c Hc) as [_ Hcount]. exact Hcount.
Qed.

(** ** Concrete sessions *)

Lemma play_reachable inputs w :
  play inputs = Ok tt w → reachable catalogue rnd_id w.
Proof. apply run_reachable, reachable_init. Qed.

Lemma lobby_world_reachable : reachable catalogue rnd_id lobby_world.
Proof. apply (play_reachable cast_session). by vm_compute. Qed.

Lemma started_world_reachable : reachable catalogue rnd_id started_world.
Proof.
  apply (play_reachable (cast_session ++ [StartPerformance "s1"])). by vm_compute.
Qed.

Lemma line_world_reachable : reachable catalogue rnd_id line_world.
Proof.
  apply (play_reachable
           (cast_session ++ [StartPerformance "s1"; TimePasses 4000; TimerFires 0])).
  by vm_compute.
Qed.

Lemma orphan_world_reachable : reachable catalogue rnd_id orphan_world.
Proof.
  apply (play_reachable
           (cast_session ++ [StartPerformance "s1"; TimePasses 4000; TimerFires 0;
                             ForceAssign "s1" "Lead" null])).
  by vm_compute.
Qed.

Lemma ended_world_reachable : reachable catalogue rnd_id ended_world.
Proof. apply (play_reachable solo_session). by vm_compute. Qed.

Lemma namesake_world_reachable : reachable catalogue rnd_id namesake_world.
Proof. apply (play_reachable namesake_session). by vm_compute. Qed.

(** A first room: the name is trimmed, index 7 falls back to the first
    script, and the first draw gives a free code. *)
Lemma create_room_registers_fresh_room_witness :
  trim " Amy " ≠ ""
  ∧ ∃ w' code,
      on_create_room catalogue rnd_id 1 "s1" (Some " Amy ") 7 connected_world = Ok tt w'
      ∧ String.length code = 4
      ∧ rooms connected_world !! code = None
      ∧ rooms w' =
          <[code := mkRoom "s1" "Amy" [] demo (unassigned (characters demo)) lobby 0]>
            (rooms connected_world).
Proof.
  assert (trim " Amy " ≠ "") as Hname by (by vm_compute).
  split; [done|].
  destruct (create_room_registers_fresh_room catalogue rnd_id connected_world 1 "s1"
              " Amy " 7 Hname) as [Hpartial Htotal].
  destruct (Htotal ltac:(discriminate) 0) as (w' & E); [lia|by vm_compute|].
  destruct (Hpartial w' E) as (code & script & Hlen & _ & Hfree & _ & Hfallback & Hrooms & _).
  exists w', code. split_and!; [exact E|exact Hlen|exact Hfree|].
  assert (Some demo = Some script) as [= <-] by (apply Hfallback; simpl; lia).
  exact Hrooms.
Defined.

(** C3 fails on the code: the one-line room has ended, and a
    late-comer's join-room is acknowledged and appends the player. *)
Theorem join_after_the_end_succeeds :
  reachable catalogue rnd_id ended_world
  ∧ state <$> rooms ended_world !! "ABCD" = Some ended
  ∧ players <$> rooms ended_world !! "ABCD" = Some []
  ∧ run catalogue rnd_id 1 [Connect "s2"; JoinRoom "s2" "ABCD" (Some "Zed")] ended_world
      = Ok tt late_world
  ∧ players <$> rooms late_world !! "ABCD" = Some [mkPlayer "s2" "Zed"]
  ∧ emitted late_world !! length (emitted ended_world)
      = Some (Callback "s2" (joined "Zed" oneliner {[ "Solo" := str "Amy" ]})).
Proof. split; [apply ended_world_reachable|]. by vm_compute. Qed.




(** C2 fails on the code: host and player are both called Amy, and the
    player owns the active line "Lead"; after the boot the line is
    unassigned, not the host's. *)
Theorem boot_namesake_leaves_line_unassigned :
  reachable catalogue rnd_id namesake_world
  ∧ hostName <$> rooms namesake_world !! "ABCD" = Some "Amy"
  ∧ players <$> rooms namesake_world !! "ABCD" = Some [mkPlayer "s2" "Amy"]
  ∧ state <$> rooms namesake_world !! "ABCD" = Some performance
  ∧ (rooms namesake_world !! "ABCD" ≫= λ r, beats (script r) !! currentBeat r)
      = Some (dialogue "Lead" "Hello.")
  ∧ (rooms namesake_world !! "ABCD" ≫= λ r, assignments r !! "Lead") = Some (str "Amy")
  ∧ handle catalogue rnd_id 1 (BootPlayer "s1" "Amy") namesake_world = Ok tt booted_world
  ∧ (rooms booted_world !! "ABCD" ≫= λ r, assignments r !! "Lead") = Some null
  ∧ players <$> rooms booted_world !! "ABCD" = Some [].
Proof. split; [apply namesake_world_reachable|]. by vm_compute. Qed.

(** On Amy's line, Ben's beat-done is dropped. *)
Lemma beat_done_gate_witness :
  reachable catalogue rnd_id line_world
  ∧ sockets line_world !! "s2" = Some ben_player
  ∧ d_code ben_player = Some "ABCD"
  ∧ rooms line_world !! "ABCD" = Some (cast_room (str "Amy") performance 1)
  ∧ state (cast_room (str "Amy") performance 1) = performance
  ∧ on_beat_done "s2" line_world = Ok tt line_world.
Proof.
  assert (sockets line_world !! "s2" = Some ben_player) as Hd by (by vm_compute).
  assert (rooms line_world !! "ABCD" = Some (cast_room (str "Amy") performance 1)) as Hr
    by (by vm_compute).
  split_and!; [apply line_world_reachable|done|done|done|done|].
  destruct (beat_done_gate catalogue rnd_id line_world "s2" ben_player "ABCD"
              (cast_room (str "Amy") performance 1) line_world_reachable Hd eq_refl Hr
              eq_refl) as (n & Hn & Hline & _).
  injection Hn as <-.
  apply (Hline "Lead" "Hello."); [by vm_compute|by vm_compute|done].
Defined.

(** On the line whose owner was cleared, the host's beat-done advances
    to beat 2 and Ben's is dropped. *)
Lemma unowned_line_host_only_witness :
  reachable catalogue rnd_id orphan_world
  ∧ sockets orphan_world !! "s1" = Some amy_host
  ∧ sockets orphan_world !! "s2" = Some ben_player
  ∧ rooms orphan_world !! "ABCD" = Some (cast_room null performance 1)
  ∧ beats (script (cast_room null performance 1)) !! 1 = Some (dialogue "Lead" "Hello.")
  ∧ assignments (cast_room null performance 1) !! "Lead" = Some null
  ∧ (∃ w' room', on_beat_done "s1" orphan_world = Ok tt w'
        ∧ rooms w' !! "ABCD" = Some room' ∧ currentBeat room' = 2)
  ∧ on_beat_done "s2" orphan_world = Ok tt orphan_world.
Proof.
  assert (sockets orphan_world !! "s1" = Some amy_host) as Hd1 by (by vm_compute).
  assert (sockets orphan_world !! "s2" = Some ben_player) as Hd2 by (by vm_compute).
  assert (rooms orphan_world !! "ABCD" = Some (cast_room null performance 1)) as Hr
    by (by vm_compute).
  assert (assignments (cast_room null performance 1) !! "Lead" = Some null) as Ha
    by (by vm_compute).
  split_and!; [apply orphan_world_reachable|done|done|done|done|done|..].
  - by apply (unowned_line_host_only catalogue rnd_id orphan_world "s1" amy_host "ABCD"
                (cast_room null performance 1) "Lead" "Hello." orphan_world_reachable
                Hd1 eq_refl Hr eq_refl eq_refl Ha).
  - by apply (unowned_line_host_only catalogue rnd_id orphan_world "s2" ben_player "ABCD"
                (cast_room null performance 1) "Lead" "Hello." orphan_world_reachable
                Hd2 eq_refl Hr eq_refl eq_refl Ha).
Defined.


(** C6, as stated, fails: the one-line room has ended, and the host's
    start-performance makes the server emit beat 0 for it again; the
    next beat-done ends the room a second time. *)
Lemma ended_room_performs_again :
  reachable catalogue rnd_id ended_world
  ∧ state <$> rooms ended_world !! "ABCD" = Some ended
  ∧ length (filter is_performance_ended (emitted ended_world)) = 1
  ∧ handle catalogue rnd_id 1 (StartPerformance "s1") ended_world = Ok tt restarted_world
  ∧ emitted restarted_world =
      emitted ended_world ++
      [ToRoom "ABCD" (performance_started "One line");
       ToRoom "ABCD" (beat_ev 0 1 (dialogue "Solo" "The end.") (str "Amy"))]
  ∧ handle catalogue rnd_id 1 (BeatDone "s1") restarted_world = Ok tt replayed_world
  ∧ state <$> rooms replayed_world !! "ABCD" = Some ended
  ∧ length (filter is_performance_ended (emitted replayed_world)) = 2.
Proof. split; [apply ended_world_reachable|]. by vm_compute. Qed.

(** The one-line room ends when its only beat is done. *)
Lemma advance_past_last_beat_witness :
  rooms solo_world !! "ABCD" = Some solo_room
  ∧ state solo_room = performance
  ∧ (length (beats (script solo_room)) ≤ S (currentBeat solo_room))%nat
  ∧ ∃ w1, advanceBeat "ABCD" solo_world = Ok tt w1
      ∧ rooms w1 =
          <["ABCD" := set_state ended (set_currentBeat (S (currentBeat solo_room)) solo_room)]>
            (rooms solo_world)
      ∧ emitted w1 = emitted solo_world ++ [ToRoom "ABCD" performance_ended].
Proof.
  assert (rooms solo_world !! "ABCD" = Some solo_room) as Hr by (by vm_compute).
  assert (length (beats (script solo_room)) ≤ S (currentBeat solo_room))%nat as Hlast
    by (vm_compute; lia).
  split_and!; [exact Hr|reflexivity|exact Hlast|].
  destruct (advance_past_last_beat catalogue rnd_id solo_world "ABCD" solo_room Hr eq_refl
              Hlast) as (w1 & E & Hrooms & Hlog & _).
  exists w1. split_and!; assumption.
Defined.

(** The started cast session is on beat 0 of 3. *)
Lemma currentBeat_in_range_witness :
  reachable catalogue rnd_id started_world
  ∧ rooms started_world !! "ABCD" = Some (cast_room (str "Amy") performance 0)
  ∧ (currentBeat (cast_room (str "Amy") performance 0)
     < length (beats (script (cast_room (str "Amy") performance 0))))%nat.
Proof.
  assert (rooms started_world !! "ABCD" = Some (cast_room (str "Amy") performance 0))
    as Hr by (by vm_compute).
  split_and!; [apply started_world_reachable|done|].
  destruct (currentBeat_in_range catalogue rnd_id started_world started_world_reachable)
    as [Hnow _].
  by apply (Hnow "ABCD" (cast_room (str "Amy") performance 0) Hr).
Defined.

(** ** Further examples *)

(** The demo script: two characters, two lines. *)
Lemma prepare_lineCount_sum_witness :
  NoDup (c_name <$> characters demo)
  ∧ sum_list (lineCount <$> characters (prepare demo))
    = length (filter is_dialogue (beats demo)).
Proof.
  assert (NoDup (c_name <$> characters demo)) as Hnd
    by (by apply (bool_decide_unpack _); vm_compute).
  split; [exact Hnd|].
  apply (prepare_lineCount_sum demo Hnd). intros ch text Hin.
  apply list_elem_of_In in Hin. apply list_elem_of_In. simpl in *.
  destruct Hin as [Hin|[Hin|[Hin|[]]]]; [discriminate|..]; injection Hin as <- _; auto.
Defined.


(** The same request, seen from the room: Ben is the active player of
    the beat that is sent again, and no timer is armed for a line. *)
Lemma force_assign_resends_beat_witness :
  reachable catalogue rnd_id line_world
  ∧ sockets line_world !! "s1" = Some amy_host
  ∧ rooms line_world !! "ABCD" = Some (cast_room (str "Amy") performance 1)
  ∧ ∃ w', on_force_assign "s1" "Lead" (str "Ben") line_world = Ok tt w'
      ∧ emitted w' =
          emitted line_world ++
          [ToRoom "ABCD"
             (assignments_ev
                (<["Lead" := str "Ben"]> (assignments (cast_room (str "Amy") performance 1))));
           ToRoom "ABCD"
             (casting_complete
                (allCharactersAssigned
                   (set_assignments
                      (<["Lead" := str "Ben"]>
                         (assignments (cast_room (str "Amy") performance 1)))
                      (cast_room (str "Amy") performance 1))));
           ToRoom "ABCD" (beat_ev 1 3 (dialogue "Lead" "Hello.") (str "Ben"))]
      ∧ timers w' = timers line_world ++ [].
Proof.
  assert (sockets line_world !! "s1" = Some amy_host) as Hd by (by vm_compute).
  assert (rooms line_world !! "ABCD" = Some (cast_room (str "Amy") performance 1)) as Hr
    by (by vm_compute).
  assert (is_Some (assignments (cast_room (str "Amy") performance 1) !! "Lead")) as Hch
    by (exists (str "Amy"); by vm_compute).
  assert (target_ok (cast_room (str "Amy") performance 1) (str "Ben")) as Ht.
  { right. exists "Ben". split; [done|]. right. exists (mkPlayer "s2" "Ben").
    split; [by constructor|done]. }
  split_and!; [apply line_world_reachable|done|done|].
  exact (force_assign_resends_beat catalogue rnd_id line_world "s1" amy_host "ABCD"
           (cast_room (str "Amy") performance 1) "Lead" (str "Ben")
           (dialogue "Lead" "Hello.") line_world_reachable Hd eq_refl eq_refl Hr Hch Ht
           eq_refl eq_refl).
Defined.


(** Ben disconnects in the lobby of the cast session: his part
    "Sidekick" is free again. *)
Lemma player_disconnect_releases_witness :
  reachable catalogue rnd_id lobby_world
  ∧ sockets lobby_world !! "s2" = Some ben_player
  ∧ rooms lobby_world !! "ABCD" = Some (cast_room (str "Amy") lobby 0)
  ∧ ∃ w', handle catalogue rnd_id 1 (Disconnect "s2") lobby_world = Ok tt w'
      ∧ rooms w' =
          <["ABCD" := set_assignments
                        (release (str "Ben") (assignments (cast_room (str "Amy") lobby 0)))
                        (set_players
                           (filter (λ p, p_id p ≠ "s2")
                              (players (cast_room (str "Amy") lobby 0)))
                           (cast_room (str "Amy") lobby 0))]>
            (rooms lobby_world)
      ∧ sockets w' = delete "s2" (sockets lobby_world)
      ∧ timers w' = timers lobby_world.
Proof.
  assert (sockets lobby_world !! "s2" = Some ben_player) as Hd by (by vm_compute).
  assert (rooms lobby_world !! "ABCD" = Some (cast_room (str "Amy") lobby 0)) as Hr
    by (by vm_compute).
  split_and!; [apply lobby_world_reachable|done|done|].
  destruct (player_disconnect_releases catalogue rnd_id lobby_world 1 "s2" ben_player "ABCD"
              (cast_room (str "Amy") lobby 0) "Ben" lobby_world_reachable Hd eq_refl eq_refl
              eq_refl Hr)
    as (w' & E & Hrooms & Hsockets & Htimers & _).
  exists w'. split_and!; [exact E|exact Hrooms|exact Hsockets|exact Htimers].
Defined.

(** The host of the cast session boots Ben in the lobby. *)
Lemma boot_player_effect_witness :
  reachable catalogue rnd_id lobby_world
  ∧ sockets lobby_world !! "s1" = Some amy_host
  ∧ rooms lobby_world !! "ABCD" = Some (cast_room (str "Amy") lobby 0)
  ∧ List.find (λ p, bool_decide (p_name p = "Ben"))
      (players (cast_room (str "Amy") lobby 0)) = Some (mkPlayer "s2" "Ben")
  ∧ ∃ w' room', on_boot_player "s1" "Ben" lobby_world = Ok tt w'
      ∧ rooms w' = <["ABCD" := room']> (rooms lobby_world)
      ∧ sockets w' = sockets lobby_world
      ∧ players room'
        = filter (λ p, p_name p ≠ "Ben") (players (cast_room (str "Amy") lobby 0))
      ∧ (∀ ch, assignments room' !! ch ≠ Some (str "Ben")).
Proof.
  assert (sockets lobby_world !! "s1" = Some amy_host) as Hd by (by vm_compute).
  assert (rooms lobby_world !! "ABCD" = Some (cast_room (str "Amy") lobby 0)) as Hr
    by (by vm_compute).
  split_and!; [apply lobby_world_reachable|done|done|done|].
  destruct (boot_player_effect catalogue rnd_id lobby_world "s1" amy_host "ABCD"
              (cast_room (str "Amy") lobby 0) "Ben" lobby_world_reachable Hd eq_refl Hr)
    as [_ Hboot].
  destruct (Hboot eq_refl (mkPlayer "s2" "Ben") eq_refl)
    as (w' & room' & out & E & _ & _ & Hrooms & Hsockets & Hplayers & Hfree & _).
  exists w', room'. split_and!; [exact E|exact Hrooms|exact Hsockets|exact Hplayers|exact Hfree].
Defined.

(** Booted in the lobby, Ben claims "Sidekick" again and gets it. *)
Lemma booted_player_can_still_claim_witness :
  reachable catalogue rnd_id lobby_world
  ∧ sockets lobby_world !! "s1" = Some amy_host
  ∧ rooms lobby_world !! "ABCD" = Some (cast_room (str "Amy") lobby 0)
  ∧ sockets lobby_world !! "s2" = Some ben_player
  ∧ assignments (cast_room (str "Amy") lobby 0) !! "Sidekick" = Some (str "Ben")
  ∧ ∃ w1 w2 room2,
      on_boot_player "s1" "Ben" lobby_world = Ok tt w1
      ∧ on_claim_character "s2" "Sidekick" w1 = Ok tt w2
      ∧ rooms w2 !! "ABCD" = Some room2
      ∧ assignments room2 !! "Sidekick" = Some (str "Ben")
      ∧ (∀ p, p ∈ players room2 → p_name p ≠ "Ben").
Proof.
  assert (sockets lobby_world !! "s1" = Some amy_host) as Hd by (by vm_compute).
  assert (rooms lobby_world !! "ABCD" = Some (cast_room (str "Amy") lobby 0)) as Hr
    by (by vm_compute).
  assert (sockets lobby_world !! "s2" = Some ben_player) as Hben by (by vm_compute).
  assert (assignments (cast_room (str "Amy") lobby 0) !! "Sidekick" = Some (str "Ben"))
    as Hch by (by vm_compute).
  split_and!; [apply lobby_world_reachable|done|done|done|done|].
  exact (booted_player_can_still_claim catalogue rnd_id lobby_world "s1" amy_host "ABCD"
           (cast_room (str "Amy") lobby 0) "Ben" (mkPlayer "s2" "Ben") ben_player "Sidekick"
           lobby_world_reachable Hd eq_refl eq_refl Hr eq_refl eq_refl Hben eq_refl eq_refl
           (or_intror Hch)).
Defined.


(** The first room of a server: created by create-room, in the lobby. *)
Lemma registry_entries_come_and_go_witness :
  handle catalogue rnd_id 1 (CreateRoom "s1" (Some "Amy") 0) connected_world
    = Ok tt hosted_world
  ∧ rooms connected_world !! "ABCD" = None
  ∧ rooms hosted_world !! "ABCD" = Some fresh_room
  ∧ ∃ sid name scriptIndex,
      CreateRoom "s1" (Some "Amy") 0 = CreateRoom sid name scriptIndex
      ∧ fresh_room = mkRoom sid (trim (default "" name)) [] (script fresh_room)
                       (unassigned (characters (script fresh_room))) lobby 0.
Proof.
  assert (handle catalogue rnd_id 1 (CreateRoom "s1" (Some "Amy") 0) connected_world
          = Ok tt hosted_world) as E by (by vm_compute).
  assert (rooms connected_world !! "ABCD" = None) as Hr by (by vm_compute).
  assert (rooms hosted_world !! "ABCD" = Some fresh_room) as Hr' by (by vm_compute).
  split_and!; [exact E|exact Hr|exact Hr'|].
  destruct (registry_entries_come_and_go catalogue rnd_id 1 (CreateRoom "s1" (Some "Amy") 0)
              connected_world hosted_world "ABCD" E) as [Hnew _].
  exact (Hnew fresh_room Hr Hr').
Defined.

(** Starting the cast session is the second way of the three. *)
Lemma state_changes_only_by_start_and_advance_witness :
  handle catalogue rnd_id 1 (StartPerformance "s1") lobby_world = Ok tt started_world
  ∧ rooms lobby_world !! "ABCD" = Some (cast_room (str "Amy") lobby 0)
  ∧ rooms started_world !! "ABCD" = Some (cast_room (str "Amy") performance 0)
  ∧ ((state (cast_room (str "Amy") performance 0) = state (cast_room (str "Amy") lobby 0)
      ∧ currentBeat (cast_room (str "Amy") performance 0)
        = currentBeat (cast_room (str "Amy") lobby 0))
     ∨ (∃ sid, StartPerformance "s1" = StartPerformance sid
               ∧ allCharactersAssigned (cast_room (str "Amy") lobby 0) = true
               ∧ state (cast_room (str "Amy") performance 0) = performance
               ∧ currentBeat (cast_room (str "Amy") performance 0) = 0)
     ∨ (((∃ sid, StartPerformance "s1" = BeatDone sid)
         ∨ (∃ k, StartPerformance "s1" = TimerFires k))
        ∧ state (cast_room (str "Amy") lobby 0) = performance
        ∧ currentBeat (cast_room (str "Amy") performance 0)
          = S (currentBeat (cast_room (str "Amy") lobby 0))
        ∧ state (cast_room (str "Amy") performance 0) =
            if decide (length (beats (script (cast_room (str "Amy") lobby 0)))
                       ≤ S (currentBeat (cast_room (str "Amy") lobby 0)))%nat
            then ended else performance)).
Proof.
  assert (handle catalogue rnd_id 1 (StartPerformance "s1") lobby_world = Ok tt started_world)
    as E by (by vm_compute).
  assert (rooms lobby_world !! "ABCD" = Some (cast_room (str "Amy") lobby 0)) as Hr
    by (by vm_compute).
  assert (rooms started_world !! "ABCD" = Some (cast_room (str "Amy") performance 0)) as Hr'
    by (by vm_compute).
  split_and!; [exact E|exact Hr|exact Hr'|].
  exact (state_changes_only_by_start_and_advance catalogue rnd_id 1 (StartPerformance "s1")
           lobby_world started_world "ABCD" _ _ E Hr Hr').
Defined.

(** Amy, host of the cast session, creates a second room: her socket
    is now host of EFGH. *)
Lemma socket_data_written_by_own_requests_witness :
  handle catalogue rnd_id 1 (CreateRoom "s1" (Some "Amy") 1) lobby_world
    = Ok tt abandoned_world
  ∧ sockets lobby_world !! "s1" = Some amy_host
  ∧ sockets abandoned_world !! "s1" = Some amy_again
  ∧ amy_again ≠ amy_host
  ∧ ((∃ name scriptIndex code,
        CreateRoom "s1" (Some "Amy") 1 = CreateRoom "s1" name scriptIndex
        ∧ amy_again = mkData (Some code) (Some host) (Some (trim (default "" name)))
        ∧ rooms lobby_world !! code = None)
     ∨ (∃ code name,
          CreateRoom "s1" (Some "Amy") 1 = JoinRoom "s1" code name
          ∧ amy_again = mkData (Some code) (Some player) (Some (trim (default "" name)))
          ∧ is_Some (rooms lobby_world !! code))).
Proof.
  assert (handle catalogue rnd_id 1 (CreateRoom "s1" (Some "Amy") 1) lobby_world
          = Ok tt abandoned_world) as E by (by vm_compute).
  assert (sockets lobby_world !! "s1" = Some amy_host) as Hd by (by vm_compute).
  assert (sockets abandoned_world !! "s1" = Some amy_again) as Hd' by (by vm_compute).
  assert (amy_again ≠ amy_host) as Hne by discriminate.
  split_and!; [exact E|exact Hd|exact Hd'|exact Hne|].
  exact (socket_data_written_by_own_requests catalogue rnd_id 1
           (CreateRoom "s1" (Some "Amy") 1) lobby_world abandoned_world "s1" _ _
           E Hd Hd' Hne).
Defined.

(** Amy's socket is the host of ABCD in the cast session, and the only one. *)
Lemma host_role_means_creator_witness :
  reachable catalogue rnd_id lobby_world
  ∧ sockets lobby_world !! "s1" = Some amy_host
  ∧ (∃ room, rooms lobby_world !! "ABCD" = Some room ∧ hostId room = "s1")
  ∧ (∀ sid' d', sockets lobby_world !! sid' = Some d' → d_code d' = Some "ABCD" →
       d_role d' = Some host → sid' = "s1").
Proof.
  assert (sockets lobby_world !! "s1" = Some amy_host) as Hd by (by vm_compute).
  split_and!; [apply lobby_world_reachable|exact Hd|..];
    apply (host_role_means_creator catalogue rnd_id lobby_world "s1" amy_host "ABCD"
             lobby_world_reachable Hd eq_refl eq_refl).
Defined.

(** What the start of the cast session sends. *)
Lemma broadcasts_tell_the_final_state_witness :
  handle catalogue rnd_id 1 (StartPerformance "s1") lobby_world = Ok tt started_world
  ∧ ∃ out, emitted started_world = emitted lobby_world ++ out
      ∧ Forall (reflects started_world) out.
Proof.
  assert (handle catalogue rnd_id 1 (StartPerformance "s1") lobby_world = Ok tt started_world)
    as E by (by vm_compute).
  split; [exact E|].
  exact (broadcasts_tell_the_final_state catalogue rnd_id 1 (StartPerformance "s1")
           lobby_world started_world E).
Defined.

(** The log of the started cast session. *)
Lemma beat_notices_well_formed_witness :
  reachable catalogue rnd_id started_world
  ∧ Forall (beat_notice_ok catalogue) (emitted started_world).
Proof.
  split; [apply started_world_reachable|].
  exact (beat_notices_well_formed catalogue rnd_id started_world started_world_reachable).
Defined.

Lemma abandoned_world_unhosted : unhosted "ABCD" abandoned_world.
Proof.
  assert (map_Forall (λ _ d, d_code d = Some "ABCD" → d_role d ≠ Some host)
            (sockets abandoned_world)) as H
    by (by apply (bool_decide_unpack _); vm_compute).
  intros sid d Hd. by apply (H sid d Hd).
Qed.

(** After Amy has created a second room, ABCD survives the disconnect
    of every socket. *)
Lemma unhosted_room_is_never_closed_witness :
  is_Some (rooms abandoned_world !! "ABCD")
  ∧ unhosted "ABCD" abandoned_world
  ∧ ∃ w', run catalogue rnd_id 1 [Disconnect "s1"; Disconnect "s2"] abandoned_world
          = Ok tt w'
      ∧ is_Some (rooms w' !! "ABCD") ∧ unhosted "ABCD" w'.
Proof.
  assert (is_Some (rooms abandoned_world !! "ABCD")) as Hr
    by (exists (cast_room (str "Amy") lobby 0); by vm_compute).
  split_and!; [exact Hr|exact abandoned_world_unhosted|].
  eexists. split; [by vm_compute|].
  eapply (unhosted_room_is_never_closed catalogue rnd_id 1 [Disconnect "s1"; Disconnect "s2"]
            abandoned_world _ "ABCD" Hr abandoned_world_unhosted).
  by vm_compute.
Defined.

(** Amy's second create-room leaves ABCD without a host. *)
Lemma rebound_host_leaves_room_unhosted_witness :
  reachable catalogue rnd_id lobby_world
  ∧ sockets lobby_world !! "s1" = Some amy_host
  ∧ handle catalogue rnd_id 1 (CreateRoom "s1" (Some "Amy") 1) lobby_world
    = Ok tt abandoned_world
  ∧ sockets abandoned_world !! "s1" = Some amy_again
  ∧ amy_again ≠ amy_host
  ∧ is_Some (rooms abandoned_world !! "ABCD") ∧ unhosted "ABCD" abandoned_world.
Proof.
  assert (handle catalogue rnd_id 1 (CreateRoom "s1" (Some "Amy") 1) lobby_world
          = Ok tt abandoned_world) as E by (by vm_compute).
  assert (sockets lobby_world !! "s1" = Some amy_host) as Hd by (by vm_compute).
  assert (sockets abandoned_world !! "s1" = Some amy_again) as Hd' by (by vm_compute).
  assert (amy_again ≠ amy_host) as Hne by discriminate.
  split_and!; [apply lobby_world_reachable|exact Hd|exact E|exact Hd'|exact Hne|..];
    apply (rebound_host_leaves_room_unhosted catalogue rnd_id 1
             (CreateRoom "s1" (Some "Amy") 1) lobby_world abandoned_world "s1" amy_host
             amy_again "ABCD" lobby_world_reachable Hd eq_refl eq_refl E Hd' Hne).
Defined.


(** The catalogue of the examples is its own image under the pass. *)
Lemma rooms_carry_line_counts_witness :
  reachable (prepare <$> catalogue) rnd_id lobby_world
  ∧ rooms lobby_world !! "ABCD" = Some (cast_room (str "Amy") lobby 0)
  ∧ ∃ s, s ∈ catalogue ∧ script (cast_room (str "Amy") lobby 0) = prepare s
      ∧ Forall (λ c, lineCount c
                     = lines_of (c_name c) (beats (script (cast_room (str "Amy") lobby 0))))
          (characters (script (cast_room (str "Amy") lobby 0))).
Proof.
  assert (prepare <$> catalogue = catalogue) as Hcat by (by vm_compute).
  assert (reachable (prepare <$> catalogue) rnd_id lobby_world) as Hw
    by (rewrite Hcat; apply lobby_world_reachable).
  assert (rooms lobby_world !! "ABCD" = Some (cast_room (str "Amy") lobby 0)) as Hr
    by (by vm_compute).
  split_and!; [exact Hw|exact Hr|].
  exact (rooms_carry_line_counts catalogue rnd_id lobby_world "ABCD" _ Hw Hr).
Defined.

(** The opening direction of the started cast session: its timer is
    pending, and fires after four seconds. *)
Lemma direction_has_pending_timer_witness :
  reachable catalogue rnd_id started_world
  ∧ rooms started_world !! "ABCD" = Some (cast_room (str "Amy") performance 0)
  ∧ beats (script (cast_room (str "Amy") performance 0)) !! 0 = Some (direction "Lights up.")
  ∧ ∃ k t, timers started_world !! k = Some t
      ∧ t_code t = "ABCD" ∧ t_beatIndex t = 0
      ∧ (t_due t ≤ now started_world + delay)%nat
      ∧ ∀ ms, (t_due t ≤ now started_world + ms)%nat →
          ∃ w', run catalogue rnd_id 1 [TimePasses ms; TimerFires k] started_world = Ok tt w'
            ∧ rooms w' =
                <["ABCD" := advanced (cast_room (str "Amy") performance 0)]>
                  (rooms started_world).
Proof.
  assert (rooms started_world !! "ABCD" = Some (cast_room (str "Amy") performance 0))
    as Hr by (by vm_compute).
  split_and!; [apply started_world_reachable|exact Hr|reflexivity|].
  exact (direction_has_pending_timer catalogue rnd_id started_world 1 "ABCD"
           (cast_room (str "Amy") performance 0) "Lights up." started_world_reachable Hr
           eq_refl eq_refl).
Defined.

(** Amy gives her part back in the lobby: a claim, in the lobby. *)
Lemma casting_changes_only_by_casting_requests_witness :
  handle catalogue rnd_id 1 (ClaimCharacter "s1" "Lead") lobby_world = Ok tt uncast_world
  ∧ rooms lobby_world !! "ABCD" = Some (cast_room (str "Amy") lobby 0)
  ∧ rooms uncast_world !! "ABCD" = Some (cast_room null lobby 0)
  ∧ assignments (cast_room null lobby 0) ≠ assignments (cast_room (str "Amy") lobby 0)
  ∧ casting_step (ClaimCharacter "s1" "Lead") lobby_world "ABCD"
      (cast_room (str "Amy") lobby 0).
Proof.
  assert (handle catalogue rnd_id 1 (ClaimCharacter "s1" "Lead") lobby_world
          = Ok tt uncast_world) as E by (by vm_compute).
  assert (rooms lobby_world !! "ABCD" = Some (cast_room (str "Amy") lobby 0)) as Hr
    by (by vm_compute).
  assert (rooms uncast_world !! "ABCD" = Some (cast_room null lobby 0)) as Hr'
    by (by vm_compute).
  assert (assignments (cast_room null lobby 0) ≠ assignments (cast_room (str "Amy") lobby 0))
    as Hne.
  { intros Heq. apply (f_equal (λ a : gmap string jsval, a !! "Lead")) in Heq.
    vm_compute in Heq. discriminate. }
  split_and!; [exact E|exact Hr|exact Hr'|exact Hne|].
  exact (casting_changes_only_by_casting_requests catalogue rnd_id 1
           (ClaimCharacter "s1" "Lead") lobby_world uncast_world "ABCD" _ _ E Hr Hr' Hne).
Defined.

(** The entry of the one-line script, and the room created from its id. *)
Lemma listed_script_is_the_script_created_witness :
  api_scripts catalogue (λ _, undefined) (λ _, undefined) (λ _, undefined) !! 1
    = Some oneliner_info
  ∧ trim (default "" (Some "Amy")) ≠ ""
  ∧ si_id oneliner_info = 1
  ∧ ∀ w',
      on_create_room catalogue rnd_id 1 "s1" (Some "Amy") (Z.of_nat (si_id oneliner_info))
        connected_world = Ok tt w' →
      ∃ code room,
        rooms connected_world !! code = None ∧ rooms w' !! code = Some room
        ∧ title (script room) = si_title oneliner_info
        ∧ length (beats (script room)) = si_beatCount oneliner_info
        ∧ (λ c, (c_name c, lineCount c)) <$> characters (script room)
          = (λ ci, (ci_name ci, ci_lineCount ci)) <$> si_characters oneliner_info.
Proof.
  assert (api_scripts catalogue (λ _, undefined) (λ _, undefined) (λ _, undefined) !! 1
          = Some oneliner_info) as Hi by (by vm_compute).
  assert (trim (default "" (Some "Amy")) ≠ "") as Hname by (by vm_compute).
  destruct (listed_script_is_the_script_created catalogue rnd_id (λ _, undefined)
              (λ _, undefined) (λ _, undefined) 1 oneliner_info Hi)
    as (Hid & _ & _ & _ & _ & _ & Hcreate).
  split_and!; [exact Hi|exact Hname|exact Hid|].
  intros w' E. exact (Hcreate 1 "s1" (Some "Amy") connected_world w' Hname E).
Defined.

(** The start of the cast session concerns ABCD: it comes from Amy's
    socket, which is bound to it. *)
Lemma rooms_are_isolated_witness :
  handle catalogue rnd_id 1 (StartPerformance "s1") lobby_world = Ok tt started_world
  ∧ rooms started_world !! "ABCD" ≠ rooms lobby_world !! "ABCD"
  ∧ concerns (StartPerformance "s1") lobby_world "ABCD".
Proof.
  assert (handle catalogue rnd_id 1 (StartPerformance "s1") lobby_world = Ok tt started_world)
    as E by (by vm_compute).
  assert (rooms started_world !! "ABCD" ≠ rooms lobby_world !! "ABCD") as Hne.
  { assert (rooms lobby_world !! "ABCD" = Some (cast_room (str "Amy") lobby 0)) as ->
      by (by vm_compute).
    assert (rooms started_world !! "ABCD" = Some (cast_room (str "Amy") performance 0)) as ->
      by (by vm_compute).
    unfold cast_room. congruence. }
  split_and!; [exact E|exact Hne|].
  exact (rooms_are_isolated catalogue rnd_id 1 (StartPerformance "s1") lobby_world
           started_world "ABCD" E Hne).
Defined.

(** Ben leaves the lobby of the cast session. *)
Lemma players_change_only_by_join_boot_and_leave_witness :
  handle catalogue rnd_id 1 (Disconnect "s2") lobby_world = Ok tt left_world
  ∧ rooms lobby_world !! "ABCD" = Some (cast_room (str "Amy") lobby 0)
  ∧ rooms left_world !! "ABCD" = Some left_room
  ∧ players_step (Disconnect "s2") lobby_world "ABCD" (cast_room (str "Amy") lobby 0)
      left_room.
Proof.
  assert (handle catalogue rnd_id 1 (Disconnect "s2") lobby_world = Ok tt left_world)
    as E by (by vm_compute).
  assert (rooms lobby_world !! "ABCD" = Some (cast_room (str "Amy") lobby 0)) as Hr
    by (by vm_compute).
  assert (rooms left_world !! "ABCD" = Some left_room) as Hr' by (by vm_compute).
  split_and!; [exact E|exact Hr|exact Hr'|].
  exact (players_change_only_by_join_boot_and_leave catalogue rnd_id 1 (Disconnect "s2")
           lobby_world left_world "ABCD" _ _ E Hr Hr').
Defined.
